(** * Paper.js (instaedu fork): AreaText and Group

    A shallow embedding of [src/text/AreaText.js] (the [AreaText] item and the
    [Group] item that follows it in the same file) and of the older revision
    of [AreaText] kept beside it, with the properties of the drawing and
    style code stated over the embedding.

    Conventions of the embedding.
    - A JavaScript number is a rational ([Q]); [NaN] and the infinities have
      no counterpart, so [!x] on a number is [x == 0].
    - [undefined]/[null] is [None]; an object reference that may be missing
      is an [option].
    - The 2D canvas context is a record of the attributes the code touches,
      its current transformation matrix and the list of glyph runs painted
      so far.
    - Code of the library that is not in these two files ([Item.draw],
      [Item._setStyles], [Style.getFontStyle], [Item.getStrokeBounds],
      [ctx.measureText], ...) is a [Variable] of the enclosing [Section]. *)

From Stdlib Require Import List String Ascii Bool Arith ZArith QArith Qround Lia Lqa.
From Stdlib Require Import DecimalString Permutation.
Import ListNotations.

Open Scope string_scope.
Open Scope Q_scope.

(* ------------------------------------------------------------------ *)
(** ** JavaScript helpers *)

Module JS.

(** [a > b] on numbers. *)
Definition gt (a b : Q) : bool := negb (Qle_bool a b).

(** [!x] on a number: only zero is falsy. *)
Definition falsy_num (x : Q) : bool := Qeq_bool x 0.

(** Truthiness of an optional string argument: [undefined] and [''] are
    falsy. *)
Definition truthy_str (s : option string) : bool :=
  match s with
  | Some EmptyString => false
  | Some _ => true
  | None => false
  end.

(** Truthiness of an optional number argument: [undefined] and [0] are
    falsy. *)
Definition truthy_num (x : option Q) : bool :=
  match x with
  | Some q => negb (falsy_num q)
  | None => false
  end.

(** Truthiness of an object reference. *)
Definition truthy_ref {A : Type} (x : option A) : bool :=
  match x with
  | Some _ => true
  | None => false
  end.

(** [Array.prototype.join]. *)
Definition join (separator : string) (line : list string) : string :=
  String.concat separator line.

(** [String.prototype.split] with a one-character separator. *)
Fixpoint split (sep : ascii) (s : string) : list string :=
  match s with
  | EmptyString => [EmptyString]
  | String c s' =>
      if Ascii.eqb c sep then EmptyString :: split sep s'
      else match split sep s' with
           | h :: t => String c h :: t
           | [] => [String c EmptyString]
           end
  end.

(** The characters of a string, as [s[0]], [s[1]], ... yield them: one
    one-character string per index below [s.length]. *)
Fixpoint chars (s : string) : list string :=
  match s with
  | EmptyString => []
  | String c s' => String c EmptyString :: chars s'
  end.

End JS.

(* ------------------------------------------------------------------ *)
(** ** The canvas context *)

Module Canvas.

(** The current transformation matrix [a b c d e f]. *)
Record Matrix : Type := mkMatrix
  { m_a : Q; m_b : Q; m_c : Q; m_d : Q; m_e : Q; m_f : Q }.

Definition identity : Matrix := mkMatrix 1 0 0 1 0 0.

(** A glyph run painted on the surface, with the matrix in force. *)
Inductive Paint : Type :=
| FillText (text : string) (x y : Q) (m : Matrix)
| StrokeText (text : string) (x y : Q) (m : Matrix).

Record Context : Type := mkContext
  { font : string;
    textAlign : string;
    globalCompositeOperation : string;
    transform : Matrix;
    painted : list Paint }.

Definition set_font (c : Context) (v : string) : Context :=
  mkContext v (textAlign c) (globalCompositeOperation c) (transform c) (painted c).

Definition set_textAlign (c : Context) (v : string) : Context :=
  mkContext (font c) v (globalCompositeOperation c) (transform c) (painted c).

Definition set_globalCompositeOperation (c : Context) (v : string) : Context :=
  mkContext (font c) (textAlign c) v (transform c) (painted c).

(** [ctx.translate(dx, dy)]: the matrix is multiplied on the right by the
    translation. *)
Definition translate_matrix (m : Matrix) (dx dy : Q) : Matrix :=
  mkMatrix (m_a m) (m_b m) (m_c m) (m_d m)
           (m_e m + m_a m * dx + m_c m * dy)
           (m_f m + m_b m * dx + m_d m * dy).

Definition translate (c : Context) (dx dy : Q) : Context :=
  mkContext (font c) (textAlign c) (globalCompositeOperation c)
            (translate_matrix (transform c) dx dy) (painted c).

Definition fillText (c : Context) (text : string) (x y : Q) : Context :=
  mkContext (font c) (textAlign c) (globalCompositeOperation c) (transform c)
            (painted c ++ [FillText text x y (transform c)]).

Definition strokeText (c : Context) (text : string) (x y : Q) : Context :=
  mkContext (font c) (textAlign c) (globalCompositeOperation c) (transform c)
            (painted c ++ [StrokeText text x y (transform c)]).

End Canvas.

(* ------------------------------------------------------------------ *)
(** ** Geometry and style shared by the items *)

Record Point : Type := mkPoint { px : Q; py : Q }.

Record Rectangle : Type := mkRectangle
  { rx : Q; ry : Q; width : Q; height : Q }.

Definition getTopLeft (r : Rectangle) : Point := mkPoint (rx r) (ry r).

(** [Point.floor]. *)
Definition floor (p : Point) : Point :=
  mkPoint (inject_Z (Qfloor (px p))) (inject_Z (Qfloor (py p))).

Definition Color : Type := string.

Module Style.

Record t : Type := mk
  { fillColor : option Color;
    strokeColor : option Color;
    fontSize : string;
    leading : Q;
    font : string;
    justification : string }.

Definition set_fillColor (s : t) (v : option Color) : t :=
  mk v (strokeColor s) (fontSize s) (leading s) (font s) (justification s).

Definition set_strokeColor (s : t) (v : option Color) : t :=
  mk (fillColor s) v (fontSize s) (leading s) (font s) (justification s).

Definition set_fontSize (s : t) (v : string) : t :=
  mk (fillColor s) (strokeColor s) v (leading s) (font s) (justification s).

Definition set_leading (s : t) (v : Q) : t :=
  mk (fillColor s) (strokeColor s) (fontSize s) v (font s) (justification s).

Definition set_font (s : t) (v : string) : t :=
  mk (fillColor s) (strokeColor s) (fontSize s) (leading s) v (justification s).

End Style.

(** The text payload: its content and the content split at line breaks. *)
Record TextItem : Type := mkTextItem
  { _content : string;
    _lines : list string }.

(* ------------------------------------------------------------------ *)
(** ** AreaText ([src/text/AreaText.js], lines 1-152) *)

Module AreaText.

(** The item: the style slots live on the item itself ([this.style],
    [this.fontSize], [this.leading], [this.font] are accessors of one style
    object), the payload is [this._text], the frame is [this.bounds]. *)
Record Item : Type := mkItem
  { _text : option TextItem;
    style : Style.t;
    cssFillColor : option Color;
    cssStrokeColor : option Color;
    bounds : Rectangle }.

(** State of one [_draw] call: the context, the local [currentHeight], and
    (for stating properties only) the arguments [writeLine] was called
    with, in call order. *)
Record DrawState : Type := mkDrawState
  { ctx : Canvas.Context;
    currentHeight : Q;
    emitted : list string }.

(** [setColorStyle(color, strokeColor)], lines 136-141. *)
Definition setColorStyle (this : Item) (color strokeColor : option Color) : Item :=
  let this := mkItem (_text this) (Style.set_fillColor (style this) color)
                     (cssFillColor this) (cssStrokeColor this) (bounds this) in
  let this := mkItem (_text this) (Style.set_strokeColor (style this) strokeColor)
                     (cssFillColor this) (cssStrokeColor this) (bounds this) in
  let this := mkItem (_text this) (style this) color (cssStrokeColor this)
                     (bounds this) in
  mkItem (_text this) (style this) (cssFillColor this) color (bounds this).

Section Externals.

(** [Number.prototype.toString], as [fontSize + 'px'] applies it. *)
Variable numberToString : Q -> string.

(** [parseInt]. *)
Variable parseInt : string -> Q.

(** [ctx.measureText(text).width] under the font in force. *)
Variable measureText : string -> string -> Q.

(** [Style.getFontStyle]: the CSS font description of a style. *)
Variable getFontStyle : Style.t -> string.

(** [Item._setStyles]: writes the paint attributes of a style to the
    context. *)
Variable _setStyles : Style.t -> Canvas.Context -> Canvas.Context.

(** [setFontStyle(fontSize, leading, fontFamily)], lines 142-150. *)
Definition setFontStyle (this : Item) (fontSize : Q) (leading : option Q)
    (fontFamily : option string) : Item :=
  let leading : Q :=
    match leading with
    | Some l => if JS.truthy_num (Some l) then l else fontSize * (12 # 10)
    | None => fontSize * (12 # 10)
    end in
  let st := Style.set_fontSize (style this) (numberToString fontSize ++ "px") in
  let st := Style.set_leading st leading in
  let st :=
    match fontFamily with
    | Some f => if JS.truthy_str (Some f) then Style.set_font st f else st
    | None => st
    end in
  mkItem (_text this) st (cssFillColor this) (cssStrokeColor this) (bounds this).

Section Draw.

(** The locals of [_draw] that the two closures capture and never assign. *)
Variable style0 : Style.t.
Variable leading0 : Q.
Variable maxWidth : Q.
Variable maxHeight : Q.
Variable font0 : string.

(** The test [writeLine] starts with: one more line would pass the bottom
    of the box. *)
Definition overflows (st : DrawState) : bool :=
  JS.gt (currentHeight st + leading0) maxHeight.

(** [writeLine(line)], lines 110-123. *)
Definition writeLine (st : DrawState) (line : string) : DrawState :=
  let log := (emitted st ++ [line])%list in
  if overflows st
  then mkDrawState (ctx st) (currentHeight st) log
  else
    let c := ctx st in
    let c := if JS.truthy_ref (Style.fillColor style0)
             then Canvas.fillText c line 0 0 else c in
    let c := if JS.truthy_ref (Style.strokeColor style0)
             then Canvas.strokeText c line 0 0 else c in
    let c := Canvas.translate c 0 leading0 in
    mkDrawState c (currentHeight st + leading0) log.

(** The state after [writeLine] was called on each line of [ls] in turn. *)
Definition run (st : DrawState) (ls : list string) : DrawState :=
  fold_left writeLine ls st.

(** The [for] loop of [testLine(words, separator)], lines 90-108, from
    index [n] with the accumulated [line]; one unit of fuel per iteration
    and per nested call. [words] is an array of words, or (in the nested
    call) a string read by index, given here by its characters. *)
Fixpoint testLine_from (fuel : nat) (words : list string) (separator : string)
    (n : nat) (line : list string) (st : DrawState)
    : option (list string * DrawState) :=
  match fuel with
  | O => None
  | S fuel' =>
      match nth_error words n with
      | None => Some (line, st)
      | Some w =>
          let pushed := (line ++ [w])%list in
          if JS.gt (measureText font0 (JS.join separator pushed)) maxWidth
          then
            (* [line.pop()] gives back [w] and leaves [line] *)
            match line with
            | _ :: _ =>
                (* [n--] and the loop's [n++]: the same word again *)
                testLine_from fuel' words separator n []
                              (writeLine st (JS.join separator line))
            | [] =>
                match testLine_from fuel' (JS.chars w) "" 0 [] st with
                | None => None
                | Some (l, st1) =>
                    testLine_from fuel' words separator (S n) []
                                  (writeLine st1 (JS.join "" l))
                end
            end
          else testLine_from fuel' words separator (S n) pushed st
      end
  end.

Definition testLine (fuel : nat) (words : list string) (separator : string)
    (st : DrawState) : option (list string * DrawState) :=
  testLine_from fuel words separator 0 [] st.

(** The loop over the logical lines, lines 125-132. *)
Fixpoint drawLines (fuel : nat) (lines : list string) (st : DrawState)
    : option DrawState :=
  match lines with
  | [] => Some st
  | l :: rest =>
      match testLine fuel (JS.split " "%char l) " " st with
      | None => None
      | Some (line, st1) =>
          drawLines fuel rest
            (match line with
             | _ :: _ => writeLine st1 (JS.join " " line)
             | [] => st1
             end)
      end
  end.

End Draw.

(** The context once [_draw] has set the font and the alignment and has
    moved the origin, lines 83-88. *)
Definition origin (this : Item) (c : Canvas.Context) : Canvas.Context :=
  let style0 := style this in
  let c := Canvas.set_font c (getFontStyle style0) in
  let c := Canvas.set_textAlign c (Style.justification style0) in
  Canvas.translate c
    (px (getTopLeft (bounds this)) + 1)
    (py (getTopLeft (bounds this))
     + parseInt (match Style.fontSize style0 with
                 | EmptyString => "0"
                 | s => s
                 end) - 1).

(** [_draw(ctx)], lines 68-133. [None]: the fuel ran out. *)
Definition _draw (fuel : nat) (this : Item) (c : Canvas.Context)
    : option DrawState :=
  match _text this with
  | None => Some (mkDrawState c 0 [])
  | Some text =>
      match _content text with
      | EmptyString => Some (mkDrawState c 0 [])
      | String _ _ =>
          let c := _setStyles (style this) c in
          let style0 := style this in
          let lines := _lines text in
          let leading0 := Style.leading style0 in
          let maxWidth := width (bounds this) in
          let maxHeight := height (bounds this) in
          if Qeq_bool maxWidth 0 || Qeq_bool maxHeight 0
          then Some (mkDrawState c 0 [])
          else
            let c := origin this c in
            drawLines style0 leading0 maxWidth maxHeight (Canvas.font c)
                      fuel lines (mkDrawState c 0 [])
      end
  end.

End Externals.

End AreaText.

(* ------------------------------------------------------------------ *)
(** ** AreaText, older revision (the second source file, lines 1-145)

    The style slots live on the text payload ([this._text.fillColor],
    [this.text._style], ...); [_draw] has the same body as above, reading
    the style and the font size from the payload. The two style setters
    take their values from the payload when called without arguments. *)

Module AreaTextOld.

Record Item : Type := mkItem
  { _content : string;
    _lines : list string;
    _style : Style.t;            (* of [this._text] *)
    cssFillColor : option Color;
    cssStrokeColor : option Color;
    bounds : Rectangle }.

Definition set_style (this : Item) (s : Style.t) : Item :=
  mkItem (_content this) (_lines this) s (cssFillColor this)
         (cssStrokeColor this) (bounds this).

(** [setColorStyle(color, strokeColor)], lines 118-128. [args] is [None]
    when [arguments.length == 0]. *)
Definition setColorStyle (this : Item)
    (args : option (option Color * option Color)) : Item :=
  let '(color, strokeColor) :=
    match args with
    | None => (Style.fillColor (_style this), Style.strokeColor (_style this))
    | Some a => a
    end in
  let this := set_style this (Style.set_fillColor (_style this) color) in
  let this := set_style this (Style.set_strokeColor (_style this) strokeColor) in
  let this := mkItem (_content this) (_lines this) (_style this) color
                     (cssStrokeColor this) (bounds this) in
  mkItem (_content this) (_lines this) (_style this) (cssFillColor this) color
         (bounds this).

Section Externals.

Variable numberToString : Q -> string.
Variable parseInt : string -> Q.
Variable measureText : string -> string -> Q.
Variable getFontStyle : Style.t -> string.
Variable _setStyles : Style.t -> Canvas.Context -> Canvas.Context.

(** [setFontStyle(fontSize, leading, fontFamily)], lines 129-143. *)
Definition setFontStyle (this : Item)
    (args : option (Q * option Q * option string)) : Item :=
  let '(fontSize, leading, fontFamily) :=
    match args with
    | None =>
        (parseInt (Style.fontSize (_style this)),
         Style.leading (_style this),
         Some (Style.font (_style this)))
    | Some (fontSize, leading, fontFamily) =>
        (fontSize,
         (if JS.truthy_num leading
          then match leading with Some l => l | None => 0 end
          else fontSize * (12 # 10)),
         fontFamily)
    end in
  let this := set_style this
                (Style.set_fontSize (_style this)
                                    (numberToString fontSize ++ "px")) in
  let this := set_style this (Style.set_leading (_style this) leading) in
  match fontFamily with
  | Some f =>
      if JS.truthy_str (Some f)
      then set_style this (Style.set_font (_style this) f)
      else this
  | None => this
  end.

(** [_draw(ctx)], lines 50-115: the body of [AreaText._draw] on the
    payload's style. *)
Definition _draw (fuel : nat) (this : Item) (c : Canvas.Context)
    : option AreaText.DrawState :=
  AreaText._draw parseInt measureText getFontStyle _setStyles fuel
    (AreaText.mkItem (Some (mkTextItem (_content this) (_lines this)))
                     (_style this) (cssFillColor this) (cssStrokeColor this)
                     (bounds this))
    c.

End Externals.

End AreaTextOld.

(* ------------------------------------------------------------------ *)
(** ** Group ([src/text/AreaText.js], lines 173-408) *)

Module Group.

(** A child item, as far as the group inspects it: an identity and the two
    flags behind [isClipMask()] / [_clipMask] and [isClippable()]. *)
Record Child : Type := mkChild
  { id : nat;
    _clipMask : bool;
    _clippable : bool }.

Definition isClipMask (item : Child) : bool := _clipMask item.
Definition isClippable (item : Child) : bool := _clippable item.

(** The draw parameters: the group assigns [param.offset]. *)
Record Param : Type := mkParam { offset : option Point }.

Record t : Type := mk
  { _children : list Child;
    _clipItems : option (list Child);    (* [None]: the property is deleted *)
    compositing : string }.

(** State of one [_draw] call: context and parameters, and (for stating
    properties only) the children whose [draw] was called, in call order,
    each with the blend operator in force at the call. *)
Record DrawState : Type := mkDrawState
  { ctx : Canvas.Context;
    param : Param;
    calls : list (Child * string) }.

(** The loop of [_getClipItems], over the children still to visit, with
    the items pushed so far. *)
Fixpoint collectClipItems (children : list Child) (items : list Child)
    : list Child :=
  match children with
  | [] => items
  | child :: rest =>
      collectClipItems rest
        (if _clipMask child then (items ++ [child])%list else items)
  end.

(** [_getClipItems()], lines 265-275: the list is rebuilt on every call and
    stored. *)
Definition _getClipItems (this : t) : list Child * t :=
  let items := collectClipItems (_children this) [] in
  (items, mk (_children this) (Some items) (compositing this)).

(** [isClipped()], lines 328-330. *)
Definition isClipped (this : t) : bool * t :=
  let '(items, this) := _getClipItems this in
  (Nat.ltb 0 (List.length items), this).

(** [Item.getFirstChild]. *)
Definition getFirstChild (this : t) : option Child :=
  match _children this with
  | [] => None
  | child :: _ => Some child
  end.

Section Externals.

(** [ChangeFlag.HIERARCHY] and [ChangeFlag.CLIPPING]. *)
Variable HIERARCHY : Z.
Variable CLIPPING : Z.

(** [Item.draw(ctx, param)] of a child. *)
Variable draw : Child -> Canvas.Context -> Param -> Canvas.Context * Param.

(** [Item.getStrokeBounds]. *)
Variable getStrokeBounds : t -> Rectangle.

(** [_changed(flags)], lines 252-263, as far as the clip items go (the
    matrix of the group is not part of this state). *)
Definition _changed (this : t) (flags : Z) : t :=
  if Z.eqb (Z.land flags (Z.lor HIERARCHY CLIPPING)) 0
  then this
  else mk (_children this) None (compositing this).

(** Modelled from the spec: [Item.setClipMask] is not among the sources.
    The flag is owned by the child; setting it stores the value on the
    child and raises the clipping change on the parent. [i] is the
    position of the child among the children of [this]. *)
Definition setClipMask (this : t) (i : nat) (clipMask : bool) : t :=
  match nth_error (_children this) i with
  | None => this
  | Some child =>
      let child := mkChild (id child) clipMask (_clippable child) in
      _changed
        (mk (firstn i (_children this) ++ child :: skipn (S i) (_children this))
            (_clipItems this) (compositing this))
        CLIPPING
  end.

(** [setClipped(clipped)], lines 332-336. *)
Definition setClipped (this : t) (clipped : bool) : t :=
  match getFirstChild this with
  | Some _ => setClipMask this 0 clipped
  | None => this
  end.

(** [item.draw(ctx, param)], recorded. *)
Definition draw_item (item : Child) (st : DrawState) : DrawState :=
  let '(c, p) := draw item (ctx st) (param st) in
  mkDrawState c p
    (calls st ++ [(item, Canvas.globalCompositeOperation (ctx st))]).

Definition set_gco (st : DrawState) (v : string) : DrawState :=
  mkDrawState (Canvas.set_globalCompositeOperation (ctx st) v) (param st)
              (calls st).

(** The children the first loop sets aside: not a clip mask, and not
    clippable while the group has clip items. *)
Definition deferred (hasClipItems : bool) (item : Child) : bool :=
  negb (isClipMask item) && (hasClipItems && negb (isClippable item)).

(** The first loop of [_draw], lines 366-379, over the children still to
    visit. *)
Fixpoint draw_children (this : t) (hasClipItems : bool) (children : list Child)
    (unclippable : list Child) (st : DrawState) : list Child * DrawState :=
  match children with
  | [] => (unclippable, st)
  | item :: rest =>
      if isClipMask item then
        let origComposite := Canvas.globalCompositeOperation (ctx st) in
        let st := set_gco st (compositing this) in
        let st := draw_item item st in
        let st := set_gco st origComposite in
        draw_children this hasClipItems rest unclippable st
      else if hasClipItems && negb (isClippable item) then
        draw_children this hasClipItems rest (unclippable ++ [item])%list st
      else
        draw_children this hasClipItems rest unclippable (draw_item item st)
  end.

(** The second loop, lines 381-383: the keys of the array in ascending
    order. *)
Definition draw_unclippable (unclippable : list Child) (st : DrawState)
    : DrawState :=
  fold_left (fun st item => draw_item item st) unclippable st.

(** [!bounds.width || !bounds.height], line 358. *)
Definition degenerate (bounds : Rectangle) : bool :=
  JS.falsy_num (width bounds) || JS.falsy_num (height bounds).

(** [_draw(ctx, param)], lines 353-384. *)
Definition _draw (this : t) (c : Canvas.Context) (p : Param) : t * DrawState :=
  let '(clipItems, this) := _getClipItems this in
  let hasClipItems := Nat.ltb 0 (List.length clipItems) in
  let entry : option Param :=
    if hasClipItems then
      let bounds := getStrokeBounds this in
      if degenerate bounds
      then None
      else Some (mkParam (Some (floor (getTopLeft bounds))))
    else Some p in
  match entry with
  | None => (this, mkDrawState c p [])
  | Some p =>
      let '(unclippable, st) :=
        draw_children this hasClipItems (_children this) []
                      (mkDrawState c p []) in
      (this, draw_unclippable unclippable st)
  end.

End Externals.

End Group.

(* ------------------------------------------------------------------ *)
(** ** A concrete surface and concrete collaborators

    Used to run the code on concrete inputs: a proportional font with integer
    glyph advances, decimal numerals, and children whose own drawing
    leaves the context alone. *)

Module Sample.

(** Advance width of a glyph: a proportional font. *)
Definition glyph (c : ascii) : Z :=
  match nat_of_ascii c with
  | 32%nat => 3      (* space *)
  | 97%nat => 9      (* a *)
  | 99%nat => 5      (* c *)
  | _ => 7
  end.

Fixpoint advance (text : string) : Z :=
  match text with
  | EmptyString => 0
  | String c rest => glyph c + advance rest
  end.

Definition measureText (font : string) (text : string) : Q :=
  inject_Z (advance text).

Definition numberToString (x : Q) : string :=
  NilZero.string_of_int (Z.to_int (Qfloor x)).

Fixpoint digits (s : string) (acc : Z) : Z :=
  match s with
  | String c s' =>
      let k := nat_of_ascii c in
      if Nat.leb 48 k && Nat.leb k 57
      then digits s' (10 * acc + Z.of_nat (k - 48))
      else acc
  | EmptyString => acc
  end.

Definition parseInt (s : string) : Q := inject_Z (digits s 0).

Definition getFontStyle (s : Style.t) : string :=
  Style.fontSize s ++ " " ++ Style.font s.

Definition _setStyles (s : Style.t) (c : Canvas.Context) : Canvas.Context := c.

Definition draw (item : Group.Child) (c : Canvas.Context) (p : Group.Param)
    : Canvas.Context * Group.Param := (c, p).

Definition context : Canvas.Context :=
  Canvas.mkContext "10px sans-serif" "start" "source-over" Canvas.identity [].

Definition style : Style.t :=
  Style.mk (Some "black") None "12px" (72 # 5) "sans-serif" "left".

(** A surface whose measure shrinks when a run is extended: the run "bbb"
    alone measures 50, every other run its advance. *)
Definition measureText_shrinking (font : string) (text : string) : Q :=
  if String.eqb text "bbb" then 50 else inject_Z (advance text).

(** A text item with the sample style and the frame at (10, 20). *)
Definition item (content : string) (lines : list string) (w h : Q)
    : AreaText.Item :=
  AreaText.mkItem (Some (mkTextItem content lines)) style None None
                  (mkRectangle 10 20 w h).

End Sample.

(* ------------------------------------------------------------------ *)
(** ** AreaText: the payload and cloning ([src/text/AreaText.js], lines
    41-66) *)

Module AreaTextText.

Section Externals.

(** [new TextItem(point)]. *)
Variable newTextItem : Point -> TextItem.

(** [TextItem.clone]. *)
Variable TextItem_clone : TextItem -> TextItem.

(** [Path.call(this, segments)] for the segments of an item: the style and
    the bounds of the new path. *)
Variable Path_call : AreaText.Item -> Style.t * Rectangle.

(** [Path.prototype._clone.apply(this, [copy])]: the copy, with what the
    base classes copy to it. *)
Variable Path_clone : AreaText.Item -> AreaText.Item -> AreaText.Item.

(** [setText(text)], lines 41-44. *)
Definition setText (this : AreaText.Item) (text : option TextItem)
    : AreaText.Item :=
  AreaText.mkItem
    (Some (match text with
           | Some t => t
           | None => newTextItem (getTopLeft (AreaText.bounds this))
           end))
    (AreaText.style this) (AreaText.cssFillColor this)
    (AreaText.cssStrokeColor this) (AreaText.bounds this).

(** [getText()], lines 46-48. *)
Definition getText (this : AreaText.Item) : option TextItem :=
  AreaText._text this.

(** [new AreaText(segments, createText)]: the branch of [initialize],
    lines 33-38, for an argument that is not a plain object. *)
Definition initialize_path (original : AreaText.Item) (createText : bool)
    : AreaText.Item :=
  let '(style, bounds) := Path_call original in
  let this := AreaText.mkItem None style None None bounds in
  if createText then setText this None else this.

(** [_clone(copy)], lines 50-54. *)
Definition _clone (this copy : AreaText.Item) : AreaText.Item :=
  Path_clone this copy.

(** [clone()], lines 56-66. [None]: [this.text] is [null] and
    [this.text.clone()] throws. *)
Definition clone (this : AreaText.Item) : option AreaText.Item :=
  let clone := _clone this (initialize_path this false) in
  match getText this with
  | None => None
  | Some text =>
      let clone := setText clone (Some (TextItem_clone text)) in
      let clone := AreaText.mkItem (AreaText._text clone) (AreaText.style clone)
                     (AreaText.cssFillColor this)
                     (AreaText.cssStrokeColor clone) (AreaText.bounds clone) in
      Some (AreaText.mkItem (AreaText._text clone) (AreaText.style clone)
              (AreaText.cssFillColor clone)
              (AreaText.cssStrokeColor this) (AreaText.bounds clone))
  end.

End Externals.

End AreaTextText.

(* ------------------------------------------------------------------ *)
(** ** AreaText, older revision: the payload (lines 21-26) *)

Module AreaTextOldText.

Section Externals.

Variable numberToString : Q -> string.
Variable parseInt : string -> Q.

(** [new TextItem(point)]: content, lines and style of the new payload. *)
Variable newTextItem : Point -> string * list string * Style.t.

(** [setText(text)], lines 21-26. *)
Definition setText (this : AreaTextOld.Item)
    (text : option (string * list string * Style.t)) : AreaTextOld.Item :=
  let '(content, lines, style) :=
    match text with
    | Some t => t
    | None => newTextItem (getTopLeft (AreaTextOld.bounds this))
    end in
  let this := AreaTextOld.mkItem content lines style
                (AreaTextOld.cssFillColor this)
                (AreaTextOld.cssStrokeColor this) (AreaTextOld.bounds this) in
  let this := AreaTextOld.setColorStyle this None in
  AreaTextOld.setFontStyle numberToString parseInt this None.

End Externals.

End AreaTextOldText.

(* ------------------------------------------------------------------ *)
(** ** What the wrap and the pass are compared with *)

Module Layout.

(** A string without its spaces. *)
Fixpoint letters (s : string) : string :=
  match s with
  | EmptyString => EmptyString
  | String c rest =>
      if Ascii.eqb c " "%char then letters rest else String c (letters rest)
  end.

(** The strings of a list, one after the other. *)
Fixpoint glue (l : list string) : string :=
  match l with
  | [] => EmptyString
  | x :: rest => x ++ glue rest
  end.

(** The glyph runs of one line under a style: the fill first, then the
    stroke. *)
Definition paint_line (style : Style.t) (m : Canvas.Matrix) (line : string)
    : list Canvas.Paint :=
  ((if JS.truthy_ref (Style.fillColor style)
    then [Canvas.FillText line 0 0 m] else [])
   ++ (if JS.truthy_ref (Style.strokeColor style)
       then [Canvas.StrokeText line 0 0 m] else []))%list.

(** The glyph runs of a column of lines set from the matrix [m] with the
    cursor at [h]: line after line, one leading apart, up to the first line
    that would pass the bottom of the box. *)
Fixpoint column (style : Style.t) (leading maxHeight : Q) (m : Canvas.Matrix)
    (h : Q) (lines : list string) : list Canvas.Paint :=
  match lines with
  | [] => []
  | line :: rest =>
      if JS.gt (h + leading) maxHeight then []
      else (paint_line style m line
            ++ column style leading maxHeight
                      (Canvas.translate_matrix m 0 leading) (h + leading) rest)%list
  end.

(** The number of lines of a column that are set: the lines before the
    first one that would pass the bottom of the box. *)
Fixpoint fitting (leading maxHeight : Q) (h : Q) (lines : list string) : nat :=
  match lines with
  | [] => 0%nat
  | _ :: rest =>
      if JS.gt (h + leading) maxHeight then 0%nat
      else S (fitting leading maxHeight (h + leading) rest)
  end.

(** The glyph runs of lines set one leading apart from the matrix [m], all
    of them. *)
Fixpoint rows (style : Style.t) (leading : Q) (m : Canvas.Matrix)
    (lines : list string) : list Canvas.Paint :=
  match lines with
  | [] => []
  | line :: rest =>
      (paint_line style m line
       ++ rows style leading (Canvas.translate_matrix m 0 leading) rest)%list
  end.

(** The stored clip items, when there are any stored, are the clip masks
    among the children. *)
Definition coherent (this : Group.t) : Prop :=
  match Group._clipItems this with
  | None => True
  | Some items => items = filter Group._clipMask (Group._children this)
  end.

End Layout.

(* ================================================================== *)
(** * Properties *)

(** ** Numbers *)

Lemma gt_true_iff (a b : Q) : JS.gt a b = true <-> b < a.
Proof.
  unfold JS.gt. rewrite negb_true_iff.
  destruct (Qle_bool a b) eqn:E.
  - apply Qle_bool_iff in E. split; [discriminate | intro H; lra].
  - split; [intros _ | reflexivity].
    destruct (Qlt_le_dec b a) as [H | H]; [exact H |].
    apply Qle_bool_iff in H. congruence.
Qed.

Lemma gt_false_iff (a b : Q) : JS.gt a b = false <-> a <= b.
Proof.
  unfold JS.gt. rewrite negb_false_iff. apply Qle_bool_iff.
Qed.

Lemma Qeq_bool_false (x y : Q) : ~ x == y -> Qeq_bool x y = false.
Proof.
  intro H. destruct (Qeq_bool x y) eqn:E; [| reflexivity].
  apply Qeq_bool_iff in E. contradiction.
Qed.

(** ** AreaText: emitting and wrapping lines *)

Section WriteLine.

Variable style0 : Style.t.
Variable leading0 : Q.
Variable maxHeight : Q.

#[warnings="-notation-for-abbreviation"]
Local Notation writeLine := (AreaText.writeLine style0 leading0 maxHeight).

#[warnings="-notation-for-abbreviation"]
Local Notation run := (AreaText.run style0 leading0 maxHeight).
#[warnings="-notation-for-abbreviation"]
Local Notation overflows := (AreaText.overflows leading0 maxHeight).

Lemma run_app (st : AreaText.DrawState) (l1 l2 : list string) :
  run st (l1 ++ l2) = run (run st l1) l2.
Proof. unfold AreaText.run. apply fold_left_app. Qed.

Lemma writeLine_emitted (st : AreaText.DrawState) (line : string) :
  AreaText.emitted (writeLine st line) = (AreaText.emitted st ++ [line])%list.
Proof.
  unfold AreaText.writeLine.
  destruct (overflows st); reflexivity.
Qed.

Lemma run_emitted (ls : list string) :
  forall st, AreaText.emitted (run st ls) = (AreaText.emitted st ++ ls)%list.
Proof.
  induction ls as [| l ls IH]; intro st.
  - simpl. now rewrite app_nil_r.
  - change (run st (l :: ls)) with (run (writeLine st l) ls).
    rewrite IH, writeLine_emitted, <- app_assoc. reflexivity.
Qed.

(** A line that overflows is dropped: nothing is painted, nothing moves. *)
Lemma writeLine_dropped (st : AreaText.DrawState) (line : string) :
  overflows st = true ->
  AreaText.ctx (writeLine st line) = AreaText.ctx st
  /\ AreaText.currentHeight (writeLine st line) = AreaText.currentHeight st.
Proof.
  unfold AreaText.writeLine. intros ->. split; reflexivity.
Qed.

Lemma run_dropped (ls : list string) :
  forall st, overflows st = true ->
  AreaText.ctx (run st ls) = AreaText.ctx st
  /\ AreaText.currentHeight (run st ls) = AreaText.currentHeight st.
Proof.
  induction ls as [| l ls IH]; intros st Hov.
  - split; reflexivity.
  - change (run st (l :: ls)) with (run (writeLine st l) ls).
    destruct (writeLine_dropped st l Hov) as [Hc Hh].
    assert (Hov' : overflows (writeLine st l) = true).
    { unfold AreaText.overflows in *. rewrite Hh. exact Hov. }
    destruct (IH _ Hov') as [Hc' Hh'].
    split; congruence.
Qed.

(** A line that fits advances the cursor by the leading and the origin by
    the same amount. *)
Lemma writeLine_fits (st : AreaText.DrawState) (line : string) :
  overflows st = false ->
  AreaText.currentHeight (writeLine st line)
  = AreaText.currentHeight st + leading0
  /\ Canvas.transform (AreaText.ctx (writeLine st line))
     = Canvas.translate_matrix (Canvas.transform (AreaText.ctx st)) 0 leading0
  /\ Canvas.font (AreaText.ctx (writeLine st line))
     = Canvas.font (AreaText.ctx st)
  /\ Canvas.textAlign (AreaText.ctx (writeLine st line))
     = Canvas.textAlign (AreaText.ctx st)
  /\ Canvas.globalCompositeOperation (AreaText.ctx (writeLine st line))
     = Canvas.globalCompositeOperation (AreaText.ctx st).
Proof.
  unfold AreaText.writeLine. intros ->.
  destruct (JS.truthy_ref (Style.fillColor style0)),
           (JS.truthy_ref (Style.strokeColor style0)); simpl; auto.
Qed.

End WriteLine.

Section TestLine.

Variable measureText : string -> string -> Q.
Variable style0 : Style.t.
Variable leading0 : Q.
Variable maxWidth : Q.
Variable maxHeight : Q.
Variable font0 : string.

#[warnings="-notation-for-abbreviation"]
Local Notation writeLine := (AreaText.writeLine style0 leading0 maxHeight).
#[warnings="-notation-for-abbreviation"]
Local Notation testLine_from :=
  (AreaText.testLine_from measureText style0 leading0 maxWidth maxHeight font0).
#[warnings="-notation-for-abbreviation"]
Local Notation testLine :=
  (AreaText.testLine measureText style0 leading0 maxWidth maxHeight font0).
#[warnings="-notation-for-abbreviation"]
Local Notation drawLines :=
  (AreaText.drawLines measureText style0 leading0 maxWidth maxHeight font0).
#[warnings="-notation-for-abbreviation"]
Local Notation run := (AreaText.run style0 leading0 maxHeight).

(** More fuel never changes a result. *)
Lemma testLine_from_more_fuel (fuel : nat) :
  forall fuel' words separator n line st r,
    (fuel <= fuel')%nat ->
    testLine_from fuel words separator n line st = Some r ->
    testLine_from fuel' words separator n line st = Some r.
Proof.
  induction fuel as [| fuel IH]; intros fuel' words sep n line st r Hle H.
  - discriminate.
  - destruct fuel' as [| fuel']; [lia |].
    assert (Hle' : (fuel <= fuel')%nat) by lia.
    simpl in H |- *.
    destruct (nth_error words n) as [w |]; [| exact H].
    destruct (JS.gt _ maxWidth).
    + destruct line as [| x line'].
      * destruct (testLine_from fuel (JS.chars w) "" 0%nat [] st)
          as [[l st1] |] eqn:E; [| discriminate].
        rewrite (IH _ _ _ _ _ _ _ Hle' E). eauto.
      * eauto.
    + eauto.
Qed.

(** The state changes only by calls of [writeLine]. *)
Lemma testLine_from_run (fuel : nat) :
  forall words separator n line st l st',
    testLine_from fuel words separator n line st = Some (l, st') ->
    exists ls, st' = run st ls.
Proof.
  induction fuel as [| fuel IH]; intros words sep n line st l st' H.
  - discriminate.
  - simpl in H.
    destruct (nth_error words n) as [w |].
    2:{ injection H as _ <-. now exists []. }
    destruct (JS.gt _ maxWidth).
    + destruct line as [| x line'].
      * destruct (testLine_from fuel (JS.chars w) "" 0%nat [] st)
          as [[l1 st1] |] eqn:E; [| discriminate].
        destruct (IH _ _ _ _ _ _ _ E) as [ls1 ->].
        destruct (IH _ _ _ _ _ _ _ H) as [ls2 ->].
        exists (ls1 ++ JS.join "" l1 :: ls2)%list.
        now rewrite run_app.
      * destruct (IH _ _ _ _ _ _ _ H) as [ls ->].
        now exists (JS.join sep (x :: line') :: ls).
    + eauto.
Qed.

Lemma drawLines_run (fuel : nat) (lines : list string) :
  forall st st',
    drawLines fuel lines st = Some st' ->
    exists ls, st' = run st ls.
Proof.
  induction lines as [| l rest IH]; intros st st' H; simpl in H.
  - injection H as <-. now exists [].
  - unfold AreaText.testLine in H.
    destruct (testLine_from fuel _ " " 0%nat [] st) as [[line st1] |] eqn:E;
      [| discriminate].
    destruct (testLine_from_run _ _ _ _ _ _ _ _ E) as [ls1 ->].
    destruct (IH _ _ H) as [ls2 ->].
    destruct line as [| x line'].
    + exists (ls1 ++ ls2)%list. now rewrite run_app.
    + exists (ls1 ++ JS.join " " (x :: line') :: ls2)%list.
      now rewrite run_app.
Qed.

Lemma drawLines_more_fuel (lines : list string) :
  forall fuel fuel' st r,
    (fuel <= fuel')%nat ->
    drawLines fuel lines st = Some r ->
    drawLines fuel' lines st = Some r.
Proof.
  induction lines as [| l rest IH]; intros fuel fuel' st r Hle H; simpl in *.
  - exact H.
  - unfold AreaText.testLine in *.
    destruct (testLine_from fuel _ " " 0%nat [] st) as [[line st1] |] eqn:E;
      [| discriminate].
    rewrite (testLine_from_more_fuel _ _ _ _ _ _ _ _ Hle E). eauto.
Qed.

End TestLine.

Section AreaTextDraw.

Variable parseInt : string -> Q.
Variable measureText : string -> string -> Q.
Variable getFontStyle : Style.t -> string.
Variable _setStyles : Style.t -> Canvas.Context -> Canvas.Context.

#[warnings="-notation-for-abbreviation"]
Local Notation _draw :=
  (AreaText._draw parseInt measureText getFontStyle _setStyles).
#[warnings="-notation-for-abbreviation"]
Local Notation origin := (AreaText.origin parseInt getFontStyle).

(** The state in which the first line is emitted. *)
#[warnings="-notation-for-abbreviation"]
Local Notation start this c :=
  (AreaText.mkDrawState (origin this (_setStyles (AreaText.style this) c)) 0 []).

#[warnings="-notation-for-abbreviation"]
Local Notation run_of this :=
  (AreaText.run (AreaText.style this) (Style.leading (AreaText.style this))
                (height (AreaText.bounds this))).

Lemma origin_font (this : AreaText.Item) (c : Canvas.Context) :
  Canvas.font (origin this c) = getFontStyle (AreaText.style this).
Proof. reflexivity. Qed.

(** A draw that returns has called [writeLine] on its emitted lines, in
    order, and done nothing else to the state. *)
Lemma _draw_run (fuel : nat) (this : AreaText.Item) (c : Canvas.Context)
    (res : AreaText.DrawState) :
  _draw fuel this c = Some res ->
  AreaText.emitted res <> [] ->
  res = run_of this (start this c) (AreaText.emitted res).
Proof.
  unfold AreaText._draw. intros H Hne.
  destruct (AreaText._text this) as [text |].
  2:{ injection H as <-. now elim Hne. }
  destruct (_content text).
  { injection H as <-. now elim Hne. }
  destruct (Qeq_bool (width (AreaText.bounds this)) 0
            || Qeq_bool (height (AreaText.bounds this)) 0).
  { injection H as <-. now elim Hne. }
  destruct (drawLines_run _ _ _ _ _ _ _ _ _ _ H) as [ls ->].
  rewrite run_emitted. reflexivity.
Qed.

(** C2. Vertical overflow is sticky. Take a draw that returns, and a line
    of its output at whose emission the cursor plus the leading exceeds the
    height of the box. Then the draw is the run of [writeLine] over its
    output lines, and after that line and after each later output line of
    the draw (whichever logical line it belongs to) the context, with the
    list of painted glyph runs in it, and the cursor are what they were
    just before that line: nothing more is painted and the cursor never
    changes. *)
Theorem overflow_is_sticky (fuel : nat) (this : AreaText.Item)
    (c : Canvas.Context) (res : AreaText.DrawState)
    (pre : list string) (line : string) (post : list string) :
  _draw fuel this c = Some res ->
  AreaText.emitted res = (pre ++ line :: post)%list ->
  AreaText.overflows (Style.leading (AreaText.style this))
                     (height (AreaText.bounds this))
                     (run_of this (start this c) pre) = true ->
  res = run_of this (start this c) (pre ++ line :: post)
  /\ forall k : nat,
       AreaText.ctx
         (run_of this (start this c) (pre ++ firstn k (line :: post)))
       = AreaText.ctx (run_of this (start this c) pre)
       /\ AreaText.currentHeight
            (run_of this (start this c) (pre ++ firstn k (line :: post)))
          = AreaText.currentHeight (run_of this (start this c) pre).
Proof.
  intros H Hem Hov. split.
  - rewrite <- Hem. apply (_draw_run fuel); [exact H |].
    rewrite Hem. now destruct pre.
  - intro k. rewrite run_app. now apply run_dropped.
Qed.

End AreaTextDraw.

Lemma overflow_is_sticky_witness :
  let this :=
    AreaText.mkItem (Some (mkTextItem "x" ["XXXXXXXXXX"; ""; "aaa bbb ccc"]))
                    Sample.style None None (mkRectangle 10 20 30 40) in
  let st0 :=
    AreaText.mkDrawState
      (AreaText.origin Sample.parseInt Sample.getFontStyle this
                       (Sample._setStyles Sample.style Sample.context)) 0 [] in
  let run := AreaText.run Sample.style (72 # 5) 40 st0 in
  AreaText._draw Sample.parseInt Sample.measureText Sample.getFontStyle
                 Sample._setStyles 40 this Sample.context
  = Some (run ["XXXX"; "XXXX"; "XX"; ""; "aaa"; "bbb"; "ccc"])
  /\ AreaText.ctx (run ["XXXX"; "XXXX"; "XX"; ""; "aaa"; "bbb"; "ccc"])
     = AreaText.ctx (run ["XXXX"; "XXXX"])
  /\ AreaText.currentHeight (run ["XXXX"; "XXXX"; "XX"; ""; "aaa"; "bbb"; "ccc"])
     = AreaText.currentHeight (run ["XXXX"; "XXXX"]).
Proof.
  intros this st0 run.
  assert (Hdraw :
            AreaText._draw Sample.parseInt Sample.measureText
              Sample.getFontStyle Sample._setStyles 40 this Sample.context
            = Some (run ["XXXX"; "XXXX"; "XX"; ""; "aaa"; "bbb"; "ccc"]))
    by (vm_compute; reflexivity).
  split; [exact Hdraw |].
  refine (proj2 (overflow_is_sticky Sample.parseInt Sample.measureText
                   Sample.getFontStyle Sample._setStyles 40 this Sample.context
                   (run ["XXXX"; "XXXX"; "XX"; ""; "aaa"; "bbb"; "ccc"])
                   ["XXXX"; "XXXX"] "XX" [""; "aaa"; "bbb"; "ccc"]
                   Hdraw _ _) 5%nat).
  - vm_compute. reflexivity.
  - vm_compute. reflexivity.
Defined.

Section WordWrap.

Variable parseInt : string -> Q.
Variable measureText : string -> string -> Q.
Variable getFontStyle : Style.t -> string.
Variable _setStyles : Style.t -> Canvas.Context -> Canvas.Context.

#[warnings="-notation-for-abbreviation"]
Local Notation _draw :=
  (AreaText._draw parseInt measureText getFontStyle _setStyles).

(** The words "aaa", "bbb", "ccc" under the widths of the example: the
    first finished line is "aaa", and "bbb" opens the next candidate. *)
Lemma testLine_aaa_bbb_ccc (style0 : Style.t) (leading0 maxWidth maxHeight : Q)
    (font0 : string) (fuel : nat) (st : AreaText.DrawState) :
  maxWidth < measureText font0 "aaa bbb" ->
  measureText font0 "aaa" <= maxWidth ->
  measureText font0 "bbb" <= maxWidth ->
  measureText font0 "bbb ccc" <= maxWidth ->
  (5 <= fuel)%nat ->
  AreaText.testLine measureText style0 leading0 maxWidth maxHeight font0
    fuel ["aaa"; "bbb"; "ccc"] " " st
  = Some (["bbb"; "ccc"],
          AreaText.writeLine style0 leading0 maxHeight st "aaa").
Proof.
  intros Hwide Haaa Hbbb Hbbbccc Hfuel.
  apply gt_true_iff in Hwide.
  apply gt_false_iff in Haaa, Hbbbccc, Hbbb.
  do 5 (destruct fuel as [| fuel]; [lia |]).
  unfold AreaText.testLine. cbn.
  rewrite Haaa. cbn. rewrite Hwide. cbn. rewrite Hbbb. cbn.
  rewrite Hbbbccc. reflexivity.
Qed.

(** C4, as the code has it. In the greedy wrap, when pushing the word at
    index [n] makes the candidate wider than the box and the candidate
    without it is not empty, the candidate without it is emitted and the
    loop goes on at the same index [n] with an empty candidate: the word is
    processed again, not skipped. For one logical line "aaa bbb ccc" with
    "aaa bbb" wider than the box and "aaa", "bbb" and "bbb ccc" not wider,
    the draw returns and its output is the two lines "aaa", "bbb ccc". *)
Theorem wrap_reprocesses_popped_word :
  (forall style0 leading0 maxWidth maxHeight font0 fuel words separator n
          x line w st,
      nth_error words n = Some w ->
      JS.gt (measureText font0 (JS.join separator ((x :: line) ++ [w])))
            maxWidth = true ->
      AreaText.testLine_from measureText style0 leading0 maxWidth maxHeight
        font0 (S fuel) words separator n (x :: line) st
      = AreaText.testLine_from measureText style0 leading0 maxWidth maxHeight
          font0 fuel words separator n []
          (AreaText.writeLine style0 leading0 maxHeight st
                              (JS.join separator (x :: line))))
  /\ (forall this c content fuel,
      AreaText._text this = Some (mkTextItem content ["aaa bbb ccc"]) ->
      content <> "" ->
      ~ width (AreaText.bounds this) == 0 ->
      ~ height (AreaText.bounds this) == 0 ->
      width (AreaText.bounds this)
      < measureText (getFontStyle (AreaText.style this)) "aaa bbb" ->
      measureText (getFontStyle (AreaText.style this)) "aaa"
      <= width (AreaText.bounds this) ->
      measureText (getFontStyle (AreaText.style this)) "bbb"
      <= width (AreaText.bounds this) ->
      measureText (getFontStyle (AreaText.style this)) "bbb ccc"
      <= width (AreaText.bounds this) ->
      (5 <= fuel)%nat ->
      exists res,
        _draw fuel this c = Some res
        /\ AreaText.emitted res = ["aaa"; "bbb ccc"]).
Proof.
  split.
  - intros style0 leading0 maxWidth maxHeight font0 fuel words separator n
           x line w st Hw Hgt.
    cbn [AreaText.testLine_from]. rewrite Hw.
    cbv zeta. rewrite Hgt. reflexivity.
  - intros this c content fuel Htext Hcontent Hw Hh Hwide Haaa Hbbb Hbbbccc
           Hfuel.
    unfold AreaText._draw. rewrite Htext. cbn [_content _lines].
    destruct content as [| ch content]; [now elim Hcontent |].
    rewrite (Qeq_bool_false _ _ Hw), (Qeq_bool_false _ _ Hh).
    cbn [orb AreaText.drawLines].
    change (JS.split " " "aaa bbb ccc") with ["aaa"; "bbb"; "ccc"].
    rewrite testLine_aaa_bbb_ccc; try assumption.
    eexists. split; [reflexivity |].
    rewrite !writeLine_emitted. reflexivity.
Qed.

End WordWrap.





Lemma wrap_reprocesses_popped_word_witness :
  exists res,
    AreaText._draw Sample.parseInt Sample.measureText Sample.getFontStyle
      Sample._setStyles 5
      (AreaText.mkItem (Some (mkTextItem "aaa bbb ccc" ["aaa bbb ccc"]))
                       Sample.style None None (mkRectangle 10 20 40 100))
      Sample.context
    = Some res
    /\ AreaText.emitted res = ["aaa"; "bbb ccc"].
Proof.
  refine (proj2 (wrap_reprocesses_popped_word Sample.parseInt
                   Sample.measureText Sample.getFontStyle Sample._setStyles)
                (AreaText.mkItem (Some (mkTextItem "aaa bbb ccc" ["aaa bbb ccc"]))
                                 Sample.style None None
                                 (mkRectangle 10 20 40 100))
                Sample.context "aaa bbb ccc" 5%nat eq_refl _ _ _ _ _ _ _ _).
  - discriminate.
  - vm_compute. discriminate.
  - vm_compute. discriminate.
  - vm_compute. reflexivity.
  - vm_compute. discriminate.
  - vm_compute. discriminate.
  - vm_compute. discriminate.
  - lia.
Defined.

(** C4, as stated, fails on the code: its three conditions on the widths
    do not say that "bbb" alone fits. On a surface where "aaa bbb" is wider
    than the box and "aaa" and "bbb ccc" are not, but "bbb" alone is wider,
    the popped word "bbb" meets an empty candidate, is broken by character,
    and the output is the four lines "aaa", "bb", "b", "ccc". *)
Lemma wrap_breaks_popped_word_that_does_not_fit :
  let this :=
    AreaText.mkItem (Some (mkTextItem "aaa bbb ccc" ["aaa bbb ccc"]))
                    Sample.style None None (mkRectangle 10 20 40 100) in
  let measure := Sample.measureText_shrinking "12px sans-serif" in
  width (AreaText.bounds this) < measure "aaa bbb"
  /\ measure "aaa" <= width (AreaText.bounds this)
  /\ measure "bbb ccc" <= width (AreaText.bounds this)
  /\ width (AreaText.bounds this) < measure "bbb"
  /\ option_map AreaText.emitted
       (AreaText._draw Sample.parseInt Sample.measureText_shrinking
          Sample.getFontStyle Sample._setStyles 20 this Sample.context)
     = Some ["aaa"; "bb"; "b"; "ccc"].
Proof.
  cbv zeta. repeat split; vm_compute; try reflexivity; discriminate.
Qed.

(** ** AreaText: a glyph wider than the box *)

Section WideGlyph.

Variable measureText : string -> string -> Q.
Variable style0 : Style.t.
Variable leading0 : Q.
Variable maxWidth : Q.
Variable maxHeight : Q.
Variable font0 : string.

#[warnings="-notation-for-abbreviation"]
Local Notation testLine_from :=
  (AreaText.testLine_from measureText style0 leading0 maxWidth maxHeight font0).

(** A word of one character that is wider than the box: the nested call on
    its characters meets the same word with an empty candidate again, and
    so on without end. *)
Lemma testLine_wide_glyph (ch : ascii) :
  JS.gt (measureText font0 (String ch "")) maxWidth = true ->
  forall fuel separator rest st,
    testLine_from fuel (String ch "" :: rest) separator 0 [] st = None.
Proof.
  intros Hwide fuel.
  induction fuel as [| fuel IH]; intros separator rest st; [reflexivity |].
  cbn. rewrite Hwide. cbn.
  change (String ch "" :: []) with (String ch "" :: @nil string).
  now rewrite IH.
Qed.

End WideGlyph.

(** C5, on the code. The word "W" in a box narrower than the glyph: the
    word alone exceeds the box width while the candidate is empty, the wrap
    is applied to its characters, and that call never returns, whatever the
    fuel; no output line is produced. *)
Theorem wide_glyph_never_returns (fuel : nat) :
  AreaText._draw Sample.parseInt Sample.measureText Sample.getFontStyle
    Sample._setStyles fuel
    (AreaText.mkItem (Some (mkTextItem "W" ["W"])) Sample.style None None
                     (mkRectangle 10 20 5 100))
    Sample.context
  = None.
Proof.
  unfold AreaText._draw. cbn -[AreaText.testLine_from].
  unfold AreaText.testLine.
  now rewrite testLine_wide_glyph.
Qed.

(** The long word of the example, in a box four glyphs wide. *)
Example long_word_breaks_by_character :
  option_map AreaText.emitted
    (AreaText._draw Sample.parseInt Sample.measureText Sample.getFontStyle
       Sample._setStyles 30
       (AreaText.mkItem (Some (mkTextItem "XXXXXXXXXX" ["XXXXXXXXXX"]))
                        Sample.style None None (mkRectangle 10 20 30 100))
       Sample.context)
  = Some ["XXXX"; "XXXX"; "XX"].
Proof. vm_compute. reflexivity. Qed.

(** ** AreaText: when the wrap returns *)

Lemma chars_length (s : string) : List.length (JS.chars s) = String.length s.
Proof. induction s as [| c s IH]; simpl; [reflexivity | now rewrite IH]. Qed.

Lemma split_bounds (sep : ascii) (s : string) :
  (List.length (JS.split sep s) <= S (String.length s))%nat
  /\ forall w, In w (JS.split sep s) ->
               (String.length w <= String.length s)%nat.
Proof.
  induction s as [| c s [IHn IHw]]; simpl.
  - split; [lia |]. intros w [<- | []]. simpl. lia.
  - destruct (Ascii.eqb c sep).
    + split; [simpl; lia |].
      intros w [<- | Hw]; [simpl; lia |]. specialize (IHw w Hw). lia.
    + destruct (JS.split sep s) as [| h t] eqn:E.
      * split; [simpl; lia |]. intros w [<- | []]. simpl. lia.
      * split; [simpl in *; lia |].
        intros w [<- | Hw].
        -- specialize (IHw h (or_introl eq_refl)). simpl. lia.
        -- specialize (IHw w (or_intror Hw)). lia.
Qed.

Section Returns.

Variable measureText : string -> string -> Q.
Variable style0 : Style.t.
Variable leading0 : Q.
Variable maxWidth : Q.
Variable maxHeight : Q.
Variable font0 : string.

#[warnings="-notation-for-abbreviation"]
Local Notation testLine_from :=
  (AreaText.testLine_from measureText style0 leading0 maxWidth maxHeight font0).
#[warnings="-notation-for-abbreviation"]
Local Notation testLine :=
  (AreaText.testLine measureText style0 leading0 maxWidth maxHeight font0).
#[warnings="-notation-for-abbreviation"]
Local Notation drawLines :=
  (AreaText.drawLines measureText style0 leading0 maxWidth maxHeight font0).

(** The fuel one index of the loop can use: a step for the word, and one
    more to emit a candidate that is not empty. *)
#[warnings="-notation-for-abbreviation"]
Local Notation cost line := (match line with [] => 1%nat | _ :: _ => 2%nat end).

(** A list of words each of which fits: no nested call is made. *)
Lemma testLine_from_fitting_returns (words : list string) (separator : string) :
  (forall w, In w words -> JS.gt (measureText font0 w) maxWidth = false) ->
  forall fuel n line st,
    (2 * (List.length words - n) + cost line <= fuel)%nat ->
    exists r, testLine_from fuel words separator n line st = Some r.
Proof.
  intros Hfit fuel.
  induction fuel as [| fuel IH]; intros n line st Hfuel.
  - destruct line; lia.
  - cbn [AreaText.testLine_from].
    destruct (nth_error words n) as [w |] eqn:Ew; [| eauto].
    assert (Hn : (n < List.length words)%nat)
      by (apply nth_error_Some; congruence).
    cbv zeta.
    destruct (JS.gt (measureText font0 (JS.join separator (line ++ [w])))
                    maxWidth) eqn:Egt.
    + destruct line as [| x line'].
      * cbn in Egt. rewrite (Hfit w (nth_error_In _ _ Ew)) in Egt.
        discriminate.
      * apply IH. lia.
    + apply IH. destruct line; simpl; lia.
Qed.

(** Words whose characters each fit: a nested call returns, and so does
    the loop. [longest] bounds the fuel of a nested call. *)
Lemma testLine_from_returns (words : list string) (separator : string)
    (longest : nat) :
  (forall w, In w words ->
     forall ch, In ch (JS.chars w) ->
       JS.gt (measureText font0 ch) maxWidth = false) ->
  (forall w, In w words -> (String.length w <= longest)%nat) ->
  forall fuel n line st,
    (2 * (List.length words - n) + cost line + (2 * longest + 1) <= fuel)%nat ->
    exists r, testLine_from fuel words separator n line st = Some r.
Proof.
  intros Hfit Hlong fuel.
  induction fuel as [| fuel IH]; intros n line st Hfuel.
  - destruct line; lia.
  - cbn [AreaText.testLine_from].
    destruct (nth_error words n) as [w |] eqn:Ew; [| eauto].
    assert (Hn : (n < List.length words)%nat)
      by (apply nth_error_Some; congruence).
    pose proof (nth_error_In _ _ Ew) as Hin.
    cbv zeta.
    destruct (JS.gt (measureText font0 (JS.join separator (line ++ [w])))
                    maxWidth).
    + destruct line as [| x line'].
      * destruct (testLine_from_fitting_returns (JS.chars w) "" (Hfit w Hin)
                    fuel 0%nat [] st) as [[l st1] E].
        { rewrite chars_length. specialize (Hlong w Hin). simpl. lia. }
        rewrite E. apply IH. simpl. lia.
      * apply IH. simpl. lia.
    + apply IH. destruct line; simpl; lia.
Qed.

Lemma drawLines_returns (lines : list string) (longest : nat) :
  (forall l, In l lines ->
     forall w, In w (JS.split " " l) ->
       forall ch, In ch (JS.chars w) ->
         JS.gt (measureText font0 ch) maxWidth = false) ->
  (forall l, In l lines -> (String.length l <= longest)%nat) ->
  forall fuel st,
    (4 * longest + 4 <= fuel)%nat ->
    exists r, drawLines fuel lines st = Some r.
Proof.
  induction lines as [| l rest IH]; intros Hfit Hlong fuel st Hfuel;
    cbn [AreaText.drawLines]; [eauto |].
  pose proof (split_bounds " " l) as [Hn Hw].
  pose proof (Hlong l (or_introl eq_refl)) as Hl.
  destruct (testLine_from_returns (JS.split " " l) " " longest
              (Hfit l (or_introl eq_refl))
              (fun w H => Nat.le_trans _ _ _ (Hw w H) Hl)
              fuel 0%nat [] st) as [[line st1] E].
  { simpl. lia. }
  unfold AreaText.testLine. rewrite E.
  apply IH; [| | exact Hfuel].
  - intros l0 H0. apply Hfit. now right.
  - intros l0 H0. apply Hlong. now right.
Qed.

End Returns.

(** Length of the longest string of a list. *)
Lemma longest_bound (lines : list string) :
  forall l, In l lines ->
    (String.length l <= list_max (map String.length lines))%nat.
Proof.
  intros l Hin.
  pose proof (proj1 (list_max_le (map String.length lines) _) (Nat.le_refl _))
    as Hall.
  rewrite Forall_forall in Hall. apply Hall. now apply in_map.
Qed.

(** When every character of the text fits in the box on its own, [_draw]
    returns: with fuel from four times the length of the longest logical
    line plus four. *)
Theorem _draw_returns (parseInt : string -> Q)
    (measureText : string -> string -> Q) (getFontStyle : Style.t -> string)
    (_setStyles : Style.t -> Canvas.Context -> Canvas.Context)
    (this : AreaText.Item) (c : Canvas.Context) (fuel : nat) :
  (forall text l w ch,
      AreaText._text this = Some text ->
      In l (_lines text) -> In w (JS.split " " l) -> In ch (JS.chars w) ->
      measureText (getFontStyle (AreaText.style this)) ch
      <= width (AreaText.bounds this)) ->
  (forall text,
      AreaText._text this = Some text ->
      (4 * list_max (map String.length (_lines text)) + 4 <= fuel)%nat) ->
  exists res,
    AreaText._draw parseInt measureText getFontStyle _setStyles fuel this c
    = Some res.
Proof.
  intros Hfit Hfuel. unfold AreaText._draw.
  destruct (AreaText._text this) as [text |]; [| eauto].
  destruct (_content text); [eauto |].
  destruct (Qeq_bool _ 0 || Qeq_bool _ 0); [eauto |].
  apply (drawLines_returns _ _ _ _ _ _ (_lines text)
           (list_max (map String.length (_lines text)))).
  - intros l Hl w Hw ch Hch. apply gt_false_iff.
    exact (Hfit text l w ch eq_refl Hl Hw Hch).
  - apply longest_bound.
  - exact (Hfuel text eq_refl).
Qed.

Lemma _draw_returns_witness :
  exists res,
    AreaText._draw Sample.parseInt Sample.measureText Sample.getFontStyle
      Sample._setStyles 44
      (AreaText.mkItem (Some (mkTextItem "XXXXXXXXXX" ["XXXXXXXXXX"]))
                       Sample.style None None (mkRectangle 10 20 30 100))
      Sample.context
    = Some res.
Proof.
  apply _draw_returns.
  - intros text l w ch Ht Hl Hw Hch. injection Ht as <-.
    destruct Hl as [<- | []]. destruct Hw as [<- | []].
    repeat (destruct Hch as [<- | Hch]; [vm_compute; discriminate |]).
    destruct Hch.
  - intros text Ht. injection Ht as <-. vm_compute. lia.
Defined.

(** ** AreaText: the style setters *)

(** What [setColorStyle] leaves in the four slots. *)
Lemma setColorStyle_slots (this : AreaText.Item) (color strokeColor : option Color) :
  let this' := AreaText.setColorStyle this color strokeColor in
  Style.fillColor (AreaText.style this') = color
  /\ AreaText.cssFillColor this' = color
  /\ Style.strokeColor (AreaText.style this') = strokeColor
  /\ AreaText.cssStrokeColor this' = color.
Proof. repeat split. Qed.

Lemma old_setColorStyle_slots (this : AreaTextOld.Item)
    (color strokeColor : option Color) :
  let this' := AreaTextOld.setColorStyle this (Some (color, strokeColor)) in
  Style.fillColor (AreaTextOld._style this') = color
  /\ AreaTextOld.cssFillColor this' = color
  /\ Style.strokeColor (AreaTextOld._style this') = strokeColor
  /\ AreaTextOld.cssStrokeColor this' = color.
Proof. repeat split. Qed.

(** C3, on the code. [setColorStyle('red', 'blue')]: the fill slot and its
    mirror agree, the stroke slot holds the stroke color and its mirror
    holds the fill color; so in both revisions of the file. *)
Theorem setColorStyle_stroke_mirror_holds_fill :
  let this :=
    AreaText.setColorStyle
      (AreaText.mkItem None Sample.style None None (mkRectangle 0 0 10 10))
      (Some "red") (Some "blue") in
  let old :=
    AreaTextOld.setColorStyle
      (AreaTextOld.mkItem "" [] Sample.style None None (mkRectangle 0 0 10 10))
      (Some (Some "red", Some "blue")) in
  Style.fillColor (AreaText.style this) = Some "red"
  /\ AreaText.cssFillColor this = Some "red"
  /\ Style.strokeColor (AreaText.style this) = Some "blue"
  /\ AreaText.cssStrokeColor this = Some "red"
  /\ AreaText.cssStrokeColor this <> Style.strokeColor (AreaText.style this)
  /\ Style.strokeColor (AreaTextOld._style old) = Some "blue"
  /\ AreaTextOld.cssStrokeColor old = Some "red".
Proof. cbn. repeat split. discriminate. Qed.

(** With explicit arguments the older [setFontStyle] writes to the
    payload's style what the newer one writes to the item's. *)
Lemma old_setFontStyle_explicit (numberToString : Q -> string)
    (parseInt : string -> Q) (this : AreaTextOld.Item)
    (fontSize : Q) (leading : option Q) (fontFamily : option string) :
  AreaTextOld._style
    (AreaTextOld.setFontStyle numberToString parseInt this
                              (Some (fontSize, leading, fontFamily)))
  = AreaText.style
      (AreaText.setFontStyle numberToString
         (AreaText.mkItem None (AreaTextOld._style this) None None
                          (AreaTextOld.bounds this))
         fontSize leading fontFamily).
Proof.
  unfold AreaTextOld.setFontStyle, AreaText.setFontStyle.
  destruct leading as [l |]; cbn.
  - destruct (JS.falsy_num l); cbn;
      destruct fontFamily as [[| ch f] |]; reflexivity.
  - destruct fontFamily as [[| ch f] |]; reflexivity.
Qed.

(** C9, as the code has it. After [setFontStyle(fontSize, leading,
    fontFamily)]: the leading is [fontSize * 1.2] when [leading] is not
    supplied or is supplied as zero, and is the supplied value when that is
    not zero; the font family is unchanged when [fontFamily] is not supplied
    or is the empty string, and is the supplied family otherwise; the font
    size is the number followed by "px". *)
Theorem setFontStyle_slots (numberToString : Q -> string)
    (this : AreaText.Item) (fontSize : Q) (leading : option Q)
    (fontFamily : option string) :
  let this' := AreaText.setFontStyle numberToString this fontSize leading
                                     fontFamily in
  (leading = None ->
   Style.leading (AreaText.style this') = fontSize * (12 # 10))
  /\ (forall l, leading = Some l -> l == 0 ->
      Style.leading (AreaText.style this') = fontSize * (12 # 10))
  /\ (forall l, leading = Some l -> ~ l == 0 ->
      Style.leading (AreaText.style this') = l)
  /\ (JS.truthy_str fontFamily = false ->
      Style.font (AreaText.style this') = Style.font (AreaText.style this))
  /\ (forall f, fontFamily = Some f -> f <> "" ->
      Style.font (AreaText.style this') = f)
  /\ Style.fontSize (AreaText.style this') = numberToString fontSize ++ "px".
Proof.
  unfold AreaText.setFontStyle. cbv zeta.
  repeat split.
  - intros ->. destruct fontFamily as [[| ch f] |]; reflexivity.
  - intros l -> Hl. apply Qeq_bool_iff in Hl.
    unfold JS.truthy_num, JS.falsy_num. rewrite Hl.
    destruct fontFamily as [[| ch f] |]; reflexivity.
  - intros l -> Hl. apply Qeq_bool_false in Hl.
    unfold JS.truthy_num, JS.falsy_num. rewrite Hl.
    destruct fontFamily as [[| ch f] |]; reflexivity.
  - destruct fontFamily as [[| ch f] |]; [reflexivity | discriminate | reflexivity].
  - intros f -> Hf. destruct f as [| ch f]; [now elim Hf | reflexivity].
  - destruct fontFamily as [[| ch f] |]; reflexivity.
Qed.

Lemma setFontStyle_slots_witness :
  let this := AreaText.mkItem None Sample.style None None (mkRectangle 0 0 10 10) in
  let this' := AreaText.setFontStyle Sample.numberToString this 10 (Some 15)
                                     (Some "") in
  Style.leading (AreaText.style this') = 15
  /\ Style.font (AreaText.style this') = "sans-serif"
  /\ Style.fontSize (AreaText.style this') = "10px".
Proof.
  intros this this'.
  pose proof (setFontStyle_slots Sample.numberToString this 10 (Some 15)
                                 (Some "")) as H.
  cbv zeta in H. destruct H as (_ & _ & Hl & Hf & _ & Hs).
  split; [| split].
  - apply (Hl 15); [reflexivity | vm_compute; discriminate].
  - apply Hf. reflexivity.
  - exact Hs.
Defined.

(** C9, as stated, fails on the code: [setFontStyle(10, 0)] does not store
    the supplied leading [0]; the default [10 * 1.2] takes its place. *)
Lemma setFontStyle_zero_leading_not_stored :
  let this :=
    AreaText.setFontStyle Sample.numberToString
      (AreaText.mkItem None Sample.style None None (mkRectangle 0 0 10 10))
      10 (Some 0) None in
  Style.leading (AreaText.style this) = 10 * (12 # 10)
  /\ Style.leading (AreaText.style this) <> 0.
Proof.
  cbv zeta. split.
  - reflexivity.
  - vm_compute. discriminate.
Qed.

(** ** Group: clip items *)

Lemma collectClipItems_filter (children : list Group.Child) :
  forall items,
    Group.collectClipItems children items
    = (items ++ filter Group._clipMask children)%list.
Proof.
  induction children as [| child rest IH]; intro items; simpl.
  - now rewrite app_nil_r.
  - rewrite IH. destruct (Group._clipMask child); [| reflexivity].
    now rewrite <- app_assoc.
Qed.

Lemma filter_nonempty_existsb {A : Type} (f : A -> bool) (l : list A) :
  Nat.ltb 0 (List.length (filter f l)) = existsb f l.
Proof.
  induction l as [| x l IH]; simpl; [reflexivity |].
  destruct (f x); simpl; [reflexivity | exact IH].
Qed.

Lemma isClipped_existsb (this : Group.t) :
  fst (Group.isClipped this) = existsb Group.isClipMask (Group._children this).
Proof.
  unfold Group.isClipped, Group._getClipItems. cbn.
  rewrite collectClipItems_filter. cbn. apply filter_nonempty_existsb.
Qed.

Lemma isClipped_children (this : Group.t) :
  Group._children (snd (Group.isClipped this)) = Group._children this
  /\ Group.compositing (snd (Group.isClipped this)) = Group.compositing this
  /\ Group._clipItems (snd (Group.isClipped this))
     = Some (filter Group.isClipMask (Group._children this)).
Proof.
  unfold Group.isClipped, Group._getClipItems. cbn.
  now rewrite collectClipItems_filter.
Qed.

Section GroupClip.

Variable HIERARCHY : Z.
Variable CLIPPING : Z.

#[warnings="-notation-for-abbreviation"]
Local Notation _changed := (Group._changed HIERARCHY CLIPPING).
#[warnings="-notation-for-abbreviation"]
Local Notation setClipMask := (Group.setClipMask HIERARCHY CLIPPING).
#[warnings="-notation-for-abbreviation"]
Local Notation setClipped := (Group.setClipped HIERARCHY CLIPPING).

Lemma _changed_children (this : Group.t) (flags : Z) :
  Group._children (_changed this flags) = Group._children this
  /\ Group.compositing (_changed this flags) = Group.compositing this.
Proof.
  unfold Group._changed. destruct (Z.eqb _ 0); split; reflexivity.
Qed.

Lemma setClipMask_children (this : Group.t) (i : nat) (child : Group.Child)
    (clipMask : bool) :
  nth_error (Group._children this) i = Some child ->
  Group._children (setClipMask this i clipMask)
  = (firstn i (Group._children this)
     ++ Group.mkChild (Group.id child) clipMask (Group._clippable child)
     :: skipn (S i) (Group._children this))%list.
Proof.
  intro H. unfold Group.setClipMask. rewrite H.
  now rewrite (proj1 (_changed_children _ _)).
Qed.

(** C7. [isClipped()] is true exactly when some child has its clip-mask
    flag set. The answer does not depend on what [_clipItems] holds: it is
    computed from the children on every call. After the flag of the child
    at position [i] is set to [b] and the group is notified of a change
    (any flags), [isClipped()] answers for the children with the new flag:
    [b], or a clip mask among the other children. *)
Theorem isClipped_iff_some_clip_mask (this : Group.t) :
  (fst (Group.isClipped this) = true
   <-> exists child, In child (Group._children this)
                     /\ Group.isClipMask child = true)
  /\ (forall cache,
        fst (Group.isClipped
               (Group.mk (Group._children this) cache (Group.compositing this)))
        = fst (Group.isClipped this))
  /\ (forall i child b flags,
        nth_error (Group._children this) i = Some child ->
        fst (Group.isClipped (_changed (setClipMask this i b) flags))
        = (existsb Group.isClipMask (firstn i (Group._children this))
           || (b || existsb Group.isClipMask
                            (skipn (S i) (Group._children this))))).
Proof.
  split; [| split].
  - rewrite isClipped_existsb. apply existsb_exists.
  - intro cache. now rewrite !isClipped_existsb.
  - intros i child b flags H.
    rewrite isClipped_existsb, (proj1 (_changed_children _ _)).
    rewrite (setClipMask_children _ _ _ _ H), existsb_app. reflexivity.
Qed.

(** C10. [setClipped(clipped)] leaves a group without children as it is.
    Otherwise the children afterwards are the children before with the
    clip-mask flag of the first one set to [clipped]: its other flag and
    every other child are unchanged, and so is the blend operator of the
    group. *)
Theorem setClipped_first_child_only (this : Group.t) (clipped : bool) :
  (Group._children this = [] -> setClipped this clipped = this)
  /\ (forall child rest,
        Group._children this = child :: rest ->
        Group._children (setClipped this clipped)
        = Group.mkChild (Group.id child) clipped (Group._clippable child)
          :: rest)
  /\ Group.compositing (setClipped this clipped) = Group.compositing this.
Proof.
  unfold Group.setClipped, Group.getFirstChild.
  split; [| split].
  - intros ->. reflexivity.
  - intros child rest H. rewrite H.
    rewrite (setClipMask_children _ 0 child); [| now rewrite H].
    rewrite H. reflexivity.
  - destruct (Group._children this) as [| child rest] eqn:E; [reflexivity |].
    unfold Group.setClipMask. rewrite E. cbn.
    now rewrite (proj2 (_changed_children _ _)).
Qed.

End GroupClip.

(** ** Group: the draw pass *)

Section GroupDraw.

Variable draw :
  Group.Child -> Canvas.Context -> Group.Param -> Canvas.Context * Group.Param.
Variable getStrokeBounds : Group.t -> Rectangle.

#[warnings="-notation-for-abbreviation"]
Local Notation draw_item := (Group.draw_item draw).
#[warnings="-notation-for-abbreviation"]
Local Notation draw_children := (Group.draw_children draw).
#[warnings="-notation-for-abbreviation"]
Local Notation draw_unclippable := (Group.draw_unclippable draw).
#[warnings="-notation-for-abbreviation"]
Local Notation _draw := (Group._draw draw getStrokeBounds).

(** The children drawn so far, in call order. *)
#[warnings="-notation-for-abbreviation"]
Local Notation drawn st := (map fst (Group.calls st)).

Lemma draw_item_drawn (item : Group.Child) (st : Group.DrawState) :
  drawn (draw_item item st) = (drawn st ++ [item])%list.
Proof.
  unfold Group.draw_item. destruct (draw item _ _) as [c p]. cbn.
  now rewrite map_app.
Qed.

Lemma draw_item_ctx (item : Group.Child) (st : Group.DrawState) :
  Group.ctx (draw_item item st)
  = fst (draw item (Group.ctx st) (Group.param st)).
Proof.
  unfold Group.draw_item. now destruct (draw item _ _).
Qed.

(** The first loop draws the children it does not set aside, in list
    order, and sets the others aside in list order. *)
Lemma draw_children_drawn (this : Group.t) (has : bool)
    (children : list Group.Child) :
  forall unclippable st,
    fst (draw_children this has children unclippable st)
    = (unclippable ++ filter (Group.deferred has) children)%list
    /\ drawn (snd (draw_children this has children unclippable st))
       = (drawn st
          ++ filter (fun item => negb (Group.deferred has item)) children)%list.
Proof.
  induction children as [| item rest IH]; intros unclippable st;
    cbn [Group.draw_children filter].
  - now rewrite !app_nil_r.
  - destruct (Group.isClipMask item) eqn:Em.
    + assert (Hd : Group.deferred has item = false)
        by (unfold Group.deferred; now rewrite Em).
      rewrite Hd. cbn [negb].
      destruct (IH unclippable
                   (Group.set_gco
                      (draw_item item (Group.set_gco st (Group.compositing this)))
                      (Canvas.globalCompositeOperation (Group.ctx st))))
        as [-> ->].
      split; [reflexivity |].
      cbn [Group.set_gco Group.calls]. rewrite draw_item_drawn.
      cbn [Group.set_gco Group.calls]. now rewrite <- app_assoc.
    + destruct (has && negb (Group.isClippable item)) eqn:Eh.
      * assert (Hd : Group.deferred has item = true)
          by (unfold Group.deferred; now rewrite Em, Eh).
        rewrite Hd. cbn [negb].
        destruct (IH (unclippable ++ [item])%list st) as [-> ->].
        now rewrite <- app_assoc.
      * assert (Hd : Group.deferred has item = false)
          by (unfold Group.deferred; now rewrite Em, Eh).
        rewrite Hd. cbn [negb].
        destruct (IH unclippable (draw_item item st)) as [-> ->].
        split; [reflexivity |].
        now rewrite draw_item_drawn, <- app_assoc.
Qed.

Lemma draw_unclippable_drawn (unclippable : list Group.Child) :
  forall st,
    drawn (draw_unclippable unclippable st) = (drawn st ++ unclippable)%list.
Proof.
  unfold Group.draw_unclippable.
  induction unclippable as [| item rest IH]; intro st; simpl.
  - now rewrite app_nil_r.
  - now rewrite IH, draw_item_drawn, <- app_assoc.
Qed.

(** The stroke bounds the pass looks at. *)
#[warnings="-notation-for-abbreviation"]
Local Notation bounds_of this :=
  (getStrokeBounds (snd (Group._getClipItems this))).

(** The order of a whole pass. *)
Lemma _draw_drawn (this : Group.t) (c : Canvas.Context) (p : Group.Param) :
  let has := fst (Group.isClipped this) in
  drawn (snd (_draw this c p))
  = if has && Group.degenerate (bounds_of this) then []
    else (filter (fun item => negb (Group.deferred has item))
                 (Group._children this)
          ++ filter (Group.deferred has) (Group._children this))%list.
Proof.
  unfold Group._draw, Group.isClipped.
  cbn [Group._getClipItems fst snd].
  set (this' := Group.mk _ _ _).
  set (has := Nat.ltb 0 _).
  destruct has; cbn [andb].
  - destruct (Group.degenerate (getStrokeBounds this')); [reflexivity |].
    pose proof (draw_children_drawn this' true (Group._children this') []
                  (Group.mkDrawState c
                     (Group.mkParam
                        (Some (floor (getTopLeft (getStrokeBounds this'))))) []))
      as [Hu Hd].
    destruct (draw_children _ _ _ _ _) as [u st]. cbn [fst snd] in *.
    rewrite draw_unclippable_drawn, Hd, Hu. reflexivity.
  - pose proof (draw_children_drawn this' false (Group._children this') []
                  (Group.mkDrawState c p [])) as [Hu Hd].
    destruct (draw_children _ _ _ _ _) as [u st]. cbn [fst snd] in *.
    rewrite draw_unclippable_drawn, Hd, Hu. reflexivity.
Qed.

(** An aborted pass changes nothing. *)
Lemma _draw_aborted (this : Group.t) (c : Canvas.Context) (p : Group.Param) :
  fst (Group.isClipped this) = true ->
  Group.degenerate (bounds_of this) = true ->
  snd (_draw this c p) = Group.mkDrawState c p [].
Proof.
  unfold Group._draw, Group.isClipped.
  cbn [Group._getClipItems fst snd]. intros -> ->. reflexivity.
Qed.

Lemma filter_all {A : Type} (f : A -> bool) (l : list A) :
  (forall x, In x l -> f x = true) -> filter f l = l.
Proof.
  induction l as [| x l IH]; intro H; simpl; [reflexivity |].
  rewrite (H x (or_introl eq_refl)), IH; [reflexivity |].
  intros y Hy. apply H. now right.
Qed.

Lemma filter_none {A : Type} (f : A -> bool) (l : list A) :
  (forall x, In x l -> f x = false) -> filter f l = [].
Proof.
  induction l as [| x l IH]; intro H; simpl; [reflexivity |].
  rewrite (H x (or_introl eq_refl)). apply IH.
  intros y Hy. apply H. now right.
Qed.

(** C8, as the code has it. A group with a clip mask whose stroke bounds
    have zero width or zero height draws no child and leaves the context
    and the parameters as they were; so does a group without children,
    whatever its bounds. A group without a clip mask does not look at its
    bounds: every child is drawn, in list order. *)
Theorem degenerate_bounds_abort_clipped_pass (this : Group.t)
    (c : Canvas.Context) (p : Group.Param) :
  (fst (Group.isClipped this) = true ->
   width (bounds_of this) == 0 \/ height (bounds_of this) == 0 ->
   snd (_draw this c p) = Group.mkDrawState c p [])
  /\ (Group._children this = [] ->
      snd (_draw this c p) = Group.mkDrawState c p [])
  /\ (fst (Group.isClipped this) = false ->
      drawn (snd (_draw this c p)) = Group._children this).
Proof.
  split; [| split].
  - intros Hclip Hzero. apply _draw_aborted; [exact Hclip |].
    unfold Group.degenerate, JS.falsy_num. apply orb_true_iff.
    destruct Hzero as [H | H]; [left | right]; now apply Qeq_bool_iff.
  - intro Hnil. unfold Group._draw. cbn [Group._getClipItems].
    rewrite Hnil. reflexivity.
  - intro Hclip. rewrite _draw_drawn. cbv zeta. rewrite Hclip. cbn [andb].
    rewrite filter_all, filter_none; [apply app_nil_r | |];
      intros x _; unfold Group.deferred; cbn [andb];
      now rewrite andb_false_r.
Qed.

(** *** What the pass leaves of the context *)

Lemma draw_unclippable_ctx {A : Type} (f : Canvas.Context -> A)
    (unclippable : list Group.Child) :
  (forall item, In item unclippable ->
     forall c p, f (fst (draw item c p)) = f c) ->
  forall st, f (Group.ctx (draw_unclippable unclippable st)) = f (Group.ctx st).
Proof.
  unfold Group.draw_unclippable.
  induction unclippable as [| item rest IH]; intros H st; simpl; [reflexivity |].
  rewrite IH by (intros; apply H; now right).
  rewrite draw_item_ctx. apply H. now left.
Qed.

(** The blend operator: the swap around a clip mask is undone whatever the
    clip mask did to it. *)
Lemma draw_children_gco (this : Group.t) (has : bool)
    (children : list Group.Child) :
  (forall item, In item children -> Group.isClipMask item = false ->
     forall c p, Canvas.globalCompositeOperation (fst (draw item c p))
                 = Canvas.globalCompositeOperation c) ->
  forall unclippable st,
    Canvas.globalCompositeOperation
      (Group.ctx (snd (draw_children this has children unclippable st)))
    = Canvas.globalCompositeOperation (Group.ctx st).
Proof.
  induction children as [| item rest IH]; intros H unclippable st;
    cbn [Group.draw_children]; [reflexivity |].
  assert (Hrest : forall item0, In item0 rest ->
            Group.isClipMask item0 = false ->
            forall c p, Canvas.globalCompositeOperation (fst (draw item0 c p))
                        = Canvas.globalCompositeOperation c)
    by (intros; apply H; [now right | assumption]).
  destruct (Group.isClipMask item) eqn:Em.
  - rewrite (IH Hrest). reflexivity.
  - destruct (has && negb (Group.isClippable item)).
    + apply (IH Hrest).
    + rewrite (IH Hrest), draw_item_ctx. apply H; [now left | exact Em].
Qed.

(** Any other attribute: the group itself never writes it. *)
Lemma draw_children_ctx {A : Type} (f : Canvas.Context -> A)
    (this : Group.t) (has : bool) (children : list Group.Child) :
  (forall c v, f (Canvas.set_globalCompositeOperation c v) = f c) ->
  (forall item, In item children ->
     forall c p, f (fst (draw item c p)) = f c) ->
  forall unclippable st,
    f (Group.ctx (snd (draw_children this has children unclippable st)))
    = f (Group.ctx st).
Proof.
  intro Hf.
  induction children as [| item rest IH]; intros H unclippable st;
    cbn [Group.draw_children]; [reflexivity |].
  assert (Hrest : forall item0, In item0 rest ->
            forall c p, f (fst (draw item0 c p)) = f c)
    by (intros; apply H; now right).
  destruct (Group.isClipMask item).
  - rewrite (IH Hrest). cbn [Group.set_gco Group.ctx].
    rewrite Hf, draw_item_ctx, H by now left.
    cbn [Group.set_gco Group.ctx]. apply Hf.
  - destruct (has && negb (Group.isClippable item)).
    + apply (IH Hrest).
    + rewrite (IH Hrest), draw_item_ctx. apply H. now left.
Qed.

Lemma _draw_gco (this : Group.t) (c : Canvas.Context) (p : Group.Param) :
  (forall item, In item (Group._children this) ->
     Group.isClipMask item = false ->
     forall c p, Canvas.globalCompositeOperation (fst (draw item c p))
                 = Canvas.globalCompositeOperation c) ->
  Canvas.globalCompositeOperation (Group.ctx (snd (_draw this c p)))
  = Canvas.globalCompositeOperation c.
Proof.
  intro H. unfold Group._draw. cbn [Group._getClipItems].
  set (this' := Group.mk _ _ _).
  set (has := Nat.ltb 0 _).
  assert (Hpass : forall p0,
            Canvas.globalCompositeOperation
              (Group.ctx
                 (snd (let '(unclippable, st) :=
                         draw_children this' has (Group._children this') []
                                       (Group.mkDrawState c p0 []) in
                       (this', draw_unclippable unclippable st))))
            = Canvas.globalCompositeOperation c).
  { intro p0.
    pose proof (draw_children_drawn this' has (Group._children this') []
                  (Group.mkDrawState c p0 [])) as [Hu _].
    pose proof (draw_children_gco this' has (Group._children this') H []
                  (Group.mkDrawState c p0 [])) as Hg.
    destruct (draw_children _ _ _ _ _) as [u st]. cbn [fst snd] in *.
    rewrite draw_unclippable_ctx; [exact Hg |].
    intros item Hin. subst u. cbn [app] in Hin.
    apply filter_In in Hin as [Hin Hd].
    apply H; [exact Hin |].
    unfold Group.deferred in Hd. apply andb_true_iff in Hd as [Hd _].
    now apply negb_true_iff in Hd. }
  destruct has.
  - destruct (Group.degenerate (getStrokeBounds this')); [reflexivity |].
    apply Hpass.
  - apply Hpass.
Qed.

Lemma _draw_ctx {A : Type} (f : Canvas.Context -> A) (this : Group.t)
    (c : Canvas.Context) (p : Group.Param) :
  (forall c v, f (Canvas.set_globalCompositeOperation c v) = f c) ->
  (forall item, In item (Group._children this) ->
     forall c p, f (fst (draw item c p)) = f c) ->
  f (Group.ctx (snd (_draw this c p))) = f c.
Proof.
  intros Hf H. unfold Group._draw. cbn [Group._getClipItems].
  set (this' := Group.mk _ _ _).
  set (has := Nat.ltb 0 _).
  assert (Hpass : forall p0,
            f (Group.ctx
                 (snd (let '(unclippable, st) :=
                         draw_children this' has (Group._children this') []
                                       (Group.mkDrawState c p0 []) in
                       (this', draw_unclippable unclippable st))))
            = f c).
  { intro p0.
    pose proof (draw_children_drawn this' has (Group._children this') []
                  (Group.mkDrawState c p0 [])) as [Hu _].
    pose proof (draw_children_ctx f this' has (Group._children this') Hf H []
                  (Group.mkDrawState c p0 [])) as Hg.
    destruct (draw_children _ _ _ _ _) as [u st]. cbn [fst snd] in *.
    rewrite draw_unclippable_ctx; [exact Hg |].
    intros item Hin. subst u. cbn [app] in Hin.
    apply filter_In in Hin as [Hin _]. now apply H. }
  destruct has.
  - destruct (Group.degenerate (getStrokeBounds this')); [reflexivity |].
    apply Hpass.
  - apply Hpass.
Qed.

(** *** The blend operator each child is drawn under *)

(** A call as the pass records it: a clip mask under the operator of the
    group, any other child under the operator [g]. *)
#[warnings="-notation-for-abbreviation"]
Local Notation call_under this g :=
  (fun item : Group.Child =>
     (item, if Group.isClipMask item then Group.compositing this else g)).

Lemma draw_item_calls (item : Group.Child) (st : Group.DrawState) :
  Group.calls (draw_item item st)
  = (Group.calls st
     ++ [(item, Canvas.globalCompositeOperation (Group.ctx st))])%list.
Proof.
  unfold Group.draw_item. now destruct (draw item _ _).
Qed.

Lemma draw_children_calls (this : Group.t) (has : bool)
    (children : list Group.Child) :
  (forall item, In item children -> Group.isClipMask item = false ->
     forall c p, Canvas.globalCompositeOperation (fst (draw item c p))
                 = Canvas.globalCompositeOperation c) ->
  forall unclippable st,
    Group.calls (snd (draw_children this has children unclippable st))
    = (Group.calls st
       ++ map (call_under this (Canvas.globalCompositeOperation (Group.ctx st)))
              (filter (fun item => negb (Group.deferred has item)) children))%list.
Proof.
  induction children as [| item rest IH]; intros H unclippable st;
    cbn [Group.draw_children filter].
  - cbn. now rewrite app_nil_r.
  - assert (Hrest : forall item0, In item0 rest ->
              Group.isClipMask item0 = false ->
              forall c p, Canvas.globalCompositeOperation (fst (draw item0 c p))
                          = Canvas.globalCompositeOperation c)
      by (intros; apply H; [now right | assumption]).
    destruct (Group.isClipMask item) eqn:Em.
    + assert (Hd : Group.deferred has item = false)
        by (unfold Group.deferred; now rewrite Em).
      rewrite Hd. cbn [negb map]. rewrite Em.
      rewrite (IH Hrest). cbn [Group.set_gco Group.calls Group.ctx].
      rewrite draw_item_calls. cbn [Group.set_gco Group.calls Group.ctx].
      now rewrite <- app_assoc.
    + destruct (has && negb (Group.isClippable item)) eqn:Eh.
      * assert (Hd : Group.deferred has item = true)
          by (unfold Group.deferred; now rewrite Em, Eh).
        rewrite Hd. cbn [negb]. apply (IH Hrest).
      * assert (Hd : Group.deferred has item = false)
          by (unfold Group.deferred; now rewrite Em, Eh).
        rewrite Hd. cbn [negb map]. rewrite Em.
        rewrite (IH Hrest), draw_item_calls, draw_item_ctx.
        rewrite (H item (or_introl eq_refl) Em).
        now rewrite <- app_assoc.
Qed.

Lemma draw_unclippable_calls (unclippable : list Group.Child) :
  (forall item, In item unclippable ->
     forall c p, Canvas.globalCompositeOperation (fst (draw item c p))
                 = Canvas.globalCompositeOperation c) ->
  forall st,
    Group.calls (draw_unclippable unclippable st)
    = (Group.calls st
       ++ map (fun item =>
                 (item, Canvas.globalCompositeOperation (Group.ctx st)))
              unclippable)%list.
Proof.
  unfold Group.draw_unclippable.
  induction unclippable as [| item rest IH]; intros H st; simpl.
  - now rewrite app_nil_r.
  - rewrite IH by (intros; apply H; now right).
    rewrite draw_item_calls, draw_item_ctx, (H item (or_introl eq_refl)).
    now rewrite <- app_assoc.
Qed.

(** In a pass that is not aborted, when the draws of the children that are
    not clip masks leave the blend operator as they find it: every clip
    mask is drawn under the operator of the group, and every other child,
    set aside or not, under the operator the pass was entered with. *)
Theorem clip_masks_drawn_under_group_operator (this : Group.t)
    (c : Canvas.Context) (p : Group.Param) :
  (forall item, In item (Group._children this) ->
     Group.isClipMask item = false ->
     forall c p, Canvas.globalCompositeOperation (fst (draw item c p))
                 = Canvas.globalCompositeOperation c) ->
  fst (Group.isClipped this) && Group.degenerate (bounds_of this) = false ->
  let has := fst (Group.isClipped this) in
  Group.calls (snd (_draw this c p))
  = map (call_under this (Canvas.globalCompositeOperation c))
        (filter (fun item => negb (Group.deferred has item))
                (Group._children this)
         ++ filter (Group.deferred has) (Group._children this)).
Proof.
  intros H Hok. revert Hok.
  unfold Group._draw, Group.isClipped. cbn [Group._getClipItems fst snd].
  set (this' := Group.mk _ _ _).
  set (has := Nat.ltb 0 _).
  intro Hok. cbv zeta.
  assert (Hpass : forall p0,
            Group.calls
              (snd (let '(unclippable, st) :=
                      draw_children this' has (Group._children this') []
                                    (Group.mkDrawState c p0 []) in
                    (this', draw_unclippable unclippable st)))
            = map (call_under this (Canvas.globalCompositeOperation c))
                  (filter (fun item => negb (Group.deferred has item))
                          (Group._children this)
                   ++ filter (Group.deferred has) (Group._children this))).
  { intro p0.
    pose proof (draw_children_drawn this' has (Group._children this') []
                  (Group.mkDrawState c p0 [])) as [Hu _].
    pose proof (draw_children_calls this' has (Group._children this') H []
                  (Group.mkDrawState c p0 [])) as Hc.
    pose proof (draw_children_gco this' has (Group._children this') H []
                  (Group.mkDrawState c p0 [])) as Hg.
    destruct (draw_children _ _ _ _ _) as [u st]. cbn [fst snd] in *.
    assert (Hmask : forall item, In item u -> Group.isClipMask item = false).
    { intros item Hin. subst u. cbn [app] in Hin.
      apply filter_In in Hin as [_ Hd].
      unfold Group.deferred in Hd. apply andb_true_iff in Hd as [Hd _].
      now apply negb_true_iff in Hd. }
    rewrite draw_unclippable_calls.
    2:{ intros item Hin. apply H; [| now apply Hmask].
        subst u. cbn [app] in Hin. now apply filter_In in Hin as [Hin _]. }
    rewrite Hc, Hg. cbn [Group.calls Group.ctx app]. rewrite map_app.
    f_equal. subst u. cbn [app].
    apply map_ext_in. intros item Hin.
    now rewrite (Hmask item Hin). }
  destruct has.
  - cbn [andb] in Hok. rewrite Hok. apply Hpass.
  - apply Hpass.
Qed.

(** *** The order of a pass *)

(** Whatever the children do to the context, a clip mask is drawn under
    the operator of the group: the swap comes right before its draw. *)
Lemma draw_children_mask_operator (this : Group.t) (has : bool)
    (children : list Group.Child) :
  forall unclippable st,
    (forall item op, In (item, op) (Group.calls st) ->
       Group.isClipMask item = true -> op = Group.compositing this) ->
    forall item op,
      In (item, op)
         (Group.calls (snd (draw_children this has children unclippable st))) ->
      Group.isClipMask item = true -> op = Group.compositing this.
Proof.
  induction children as [| child rest IH]; intros unclippable st Hst;
    cbn [Group.draw_children]; [exact Hst |].
  destruct (Group.isClipMask child) eqn:Em.
  - apply IH. intros item op Hin Hmask.
    cbn [Group.set_gco Group.calls] in Hin.
    rewrite draw_item_calls in Hin. cbn [Group.set_gco Group.calls Group.ctx] in Hin.
    apply in_app_or in Hin as [Hin | [Hin | []]].
    + now apply (Hst item op).
    + now injection Hin as _ <-.
  - destruct (has && negb (Group.isClippable child)).
    + now apply IH.
    + apply IH. intros item op Hin Hmask.
      rewrite draw_item_calls in Hin.
      apply in_app_or in Hin as [Hin | [Hin | []]].
      * now apply (Hst item op).
      * injection Hin as <- _. congruence.
Qed.

Lemma draw_unclippable_mask_operator (this : Group.t)
    (unclippable : list Group.Child) :
  (forall item, In item unclippable -> Group.isClipMask item = false) ->
  forall st,
    (forall item op, In (item, op) (Group.calls st) ->
       Group.isClipMask item = true -> op = Group.compositing this) ->
    forall item op,
      In (item, op) (Group.calls (draw_unclippable unclippable st)) ->
      Group.isClipMask item = true -> op = Group.compositing this.
Proof.
  unfold Group.draw_unclippable.
  induction unclippable as [| child rest IH]; intros Hu st Hst; simpl;
    [exact Hst |].
  apply IH; [intros; apply Hu; now right |].
  intros item op Hin Hmask. rewrite draw_item_calls in Hin.
  apply in_app_or in Hin as [Hin | [Hin | []]].
  - now apply (Hst item op).
  - injection Hin as <- _. rewrite (Hu child (or_introl eq_refl)) in Hmask.
    discriminate.
Qed.

(** C1, as the code has it. Call a child set aside when it is not a clip
    mask and is marked non-clippable while the group has a clip mask. A pass
    aborted for its bounds draws no child; any other pass draws every child
    once: first those not set aside (clip masks, whatever their clippable
    flag, and ordinary children) in list order, then those set aside in list
    order. So every child set aside is drawn strictly after every clip mask
    and every ordinary child of the pass, and the children set aside keep
    their relative order. Every clip mask is drawn under the blend operator
    of the group. *)
Theorem unclippable_drawn_last (this : Group.t) (c : Canvas.Context)
    (p : Group.Param) :
  let has := fst (Group.isClipped this) in
  let aborted := has && Group.degenerate (bounds_of this) in
  let order := drawn (snd (_draw this c p)) in
  order
  = (if aborted then []
     else (filter (fun item => negb (Group.deferred has item))
                  (Group._children this)
           ++ filter (Group.deferred has) (Group._children this))%list)
  /\ (forall i j a b,
        nth_error order i = Some a ->
        nth_error order j = Some b ->
        Group.deferred has a = true ->
        Group.deferred has b = false ->
        (j < i)%nat)
  /\ filter (Group.deferred has) order
     = (if aborted then []
        else filter (Group.deferred has) (Group._children this))
  /\ (forall item op,
        In (item, op) (Group.calls (snd (_draw this c p))) ->
        Group.isClipMask item = true ->
        op = Group.compositing this).
Proof.
  intros has aborted order.
  assert (E : order
              = (if aborted then []
                 else (filter (fun item => negb (Group.deferred has item))
                              (Group._children this)
                       ++ filter (Group.deferred has)
                                 (Group._children this))%list)).
  { unfold order. now rewrite _draw_drawn. }
  assert (Hfilter :
            filter (Group.deferred has)
                   (filter (fun item => negb (Group.deferred has item))
                           (Group._children this)
                    ++ filter (Group.deferred has) (Group._children this))
            = filter (Group.deferred has) (Group._children this)).
  { rewrite filter_app.
    rewrite (filter_none (Group.deferred has)
               (filter (fun item => negb (Group.deferred has item)) _)).
    - cbn [app]. apply filter_all. intros x Hx. now apply filter_In in Hx.
    - intros x Hx. apply filter_In in Hx as [_ Hx].
      now apply negb_true_iff in Hx. }
  split; [exact E | split; [| split]].
  - intros i j a b Ha Hb Da Db. rewrite E in Ha, Hb.
    destruct aborted; [now destruct i |].
    set (l1 := filter _ (Group._children this)) in *.
    set (l2 := filter (Group.deferred has) (Group._children this)) in *.
    assert (Hi : (List.length l1 <= i)%nat).
    { destruct (Nat.lt_ge_cases i (List.length l1)) as [Hlt | Hge]; [| exact Hge].
      rewrite nth_error_app1 in Ha by exact Hlt.
      apply nth_error_In in Ha. apply filter_In in Ha as [_ Ha].
      rewrite Da in Ha. discriminate. }
    assert (Hj : (j < List.length l1)%nat).
    { destruct (Nat.lt_ge_cases j (List.length l1)) as [Hlt | Hge]; [exact Hlt |].
      rewrite nth_error_app2 in Hb by exact Hge.
      apply nth_error_In in Hb. apply filter_In in Hb as [_ Hb].
      rewrite Db in Hb. discriminate. }
    lia.
  - rewrite E. destruct aborted; [reflexivity | exact Hfilter].
  - unfold Group._draw. cbn [Group._getClipItems].
    set (this' := Group.mk _ _ _).
    set (has' := Nat.ltb 0 _).
    assert (Hpass : forall p0 item op,
              In (item, op)
                 (Group.calls
                    (snd (let '(unclippable, st) :=
                            draw_children this' has' (Group._children this') []
                                          (Group.mkDrawState c p0 []) in
                          (this', draw_unclippable unclippable st)))) ->
              Group.isClipMask item = true -> op = Group.compositing this).
    { intros p0.
      pose proof (draw_children_drawn this' has' (Group._children this') []
                    (Group.mkDrawState c p0 [])) as [Hu _].
      pose proof (draw_children_mask_operator this' has' (Group._children this')
                    [] (Group.mkDrawState c p0 [])) as Hc.
      destruct (draw_children _ _ _ _ _) as [u st]. cbn [fst snd] in *.
      apply (draw_unclippable_mask_operator this' u).
      - intros item Hin. subst u. cbn [app] in Hin.
        apply filter_In in Hin as [_ Hd].
        unfold Group.deferred in Hd. apply andb_true_iff in Hd as [Hd _].
        now apply negb_true_iff in Hd.
      - apply Hc. intros item op []. }
    destruct has'.
    + destruct (Group.degenerate (getStrokeBounds this')).
      * intros item op [].
      * apply Hpass.
    + apply Hpass.
Qed.

End GroupDraw.

(** ** What a draw leaves of the surface *)

Section RunFrame.

Variable style0 : Style.t.
Variable leading0 : Q.
Variable maxHeight : Q.

#[warnings="-notation-for-abbreviation"]
Local Notation run := (AreaText.run style0 leading0 maxHeight).

(** A run of [writeLine] moves the origin down by the leading once per
    line it paints, advances the cursor as often, and leaves the other
    attributes alone. *)
Lemma run_frame (ls : list string) :
  forall st,
    exists k : nat,
      Canvas.transform (AreaText.ctx (run st ls))
      = Nat.iter k (fun m => Canvas.translate_matrix m 0 leading0)
                 (Canvas.transform (AreaText.ctx st))
      /\ AreaText.currentHeight (run st ls)
         = Nat.iter k (fun h => h + leading0) (AreaText.currentHeight st)
      /\ Canvas.font (AreaText.ctx (run st ls)) = Canvas.font (AreaText.ctx st)
      /\ Canvas.textAlign (AreaText.ctx (run st ls))
         = Canvas.textAlign (AreaText.ctx st)
      /\ Canvas.globalCompositeOperation (AreaText.ctx (run st ls))
         = Canvas.globalCompositeOperation (AreaText.ctx st).
Proof.
  induction ls as [| l ls IH]; intro st.
  - exists 0%nat. repeat split.
  - change (run st (l :: ls))
      with (run (AreaText.writeLine style0 leading0 maxHeight st l) ls).
    destruct (IH (AreaText.writeLine style0 leading0 maxHeight st l))
      as (k & Ht & Hh & Hf & Ha & Hg).
    destruct (AreaText.overflows leading0 maxHeight st) eqn:Hov.
    + destruct (writeLine_dropped style0 leading0 maxHeight st l Hov)
        as [Hc Hcur].
      exists k. rewrite Ht, Hh, Hf, Ha, Hg, Hc, Hcur. repeat split.
    + destruct (writeLine_fits style0 leading0 maxHeight st l Hov)
        as (Hcur & Htr & Hfo & Hal & Hgc).
      exists (S k). rewrite !Nat.iter_succ_r.
      rewrite Ht, Hh, Hf, Ha, Hg, Hcur, Htr, Hfo, Hal, Hgc. repeat split.
Qed.

End RunFrame.

(** C6, as stated, fails on the code: the text item returns with the
    font replaced and the transform moved. *)
Lemma AreaText_draw_leaves_transform_moved :
  exists res,
    AreaText._draw Sample.parseInt Sample.measureText Sample.getFontStyle
      Sample._setStyles 10
      (AreaText.mkItem (Some (mkTextItem "aaa" ["aaa"])) Sample.style
                       None None (mkRectangle 10 20 40 100))
      Sample.context
    = Some res
    /\ Canvas.transform Sample.context = Canvas.mkMatrix 1 0 0 1 0 0
    /\ Canvas.m_e (Canvas.transform (AreaText.ctx res)) == 11
    /\ Canvas.m_f (Canvas.transform (AreaText.ctx res)) == 454 # 10
    /\ Canvas.transform (AreaText.ctx res) <> Canvas.transform Sample.context
    /\ Canvas.font Sample.context = "10px sans-serif"
    /\ Canvas.font (AreaText.ctx res) = "12px sans-serif".
Proof.
  eexists. split; [vm_compute; reflexivity |].
  repeat split; discriminate.
Qed.

(** ** The group properties on concrete groups *)

Lemma unclippable_drawn_last_witness :
  let ordinary0 := Group.mkChild 0 false true in
  let unclippable1 := Group.mkChild 1 false false in
  let mask2 := Group.mkChild 2 true true in
  let unclippable3 := Group.mkChild 3 false false in
  let ordinary4 := Group.mkChild 4 false true in
  map fst
    (Group.calls
       (snd (Group._draw Sample.draw (fun _ => mkRectangle 0 0 10 10)
               (Group.mk [ordinary0; unclippable1; mask2; unclippable3; ordinary4]
                         None "source-in")
               Sample.context (Group.mkParam None))))
  = [ordinary0; mask2; ordinary4; unclippable1; unclippable3].
Proof.
  intros.
  exact (proj1 (unclippable_drawn_last Sample.draw
                  (fun _ => mkRectangle 0 0 10 10)
                  (Group.mk [ordinary0; unclippable1; mask2; unclippable3;
                             ordinary4] None "source-in")
                  Sample.context (Group.mkParam None))).
Defined.

(** C1, as stated, fails on the code: a child that is a clip mask is drawn
    in the first loop even when it is marked non-clippable, here before the
    clip mask that follows it. *)
Lemma unclippable_clip_mask_not_deferred :
  let a := Group.mkChild 0 true false in
  let b := Group.mkChild 1 true true in
  let this := Group.mk [a; b] None "source-in" in
  let order :=
    map fst
      (Group.calls
         (snd (Group._draw Sample.draw (fun _ => mkRectangle 0 0 10 10)
                           this Sample.context (Group.mkParam None)))) in
  fst (Group.isClipped this) = true
  /\ Group.isClippable a = false
  /\ Group.isClipMask b = true
  /\ nth_error order 0 = Some a
  /\ nth_error order 1 = Some b.
Proof. cbv zeta. repeat split. Qed.

Lemma isClipped_iff_some_clip_mask_witness :
  let this :=
    Group.mk [Group.mkChild 0 false true; Group.mkChild 1 false true]
             None "source-in" in
  fst (Group.isClipped this) = false
  /\ fst (Group.isClipped
            (Group._changed 2 256 (Group.setClipMask 2 256 this 1 true) 256))
     = true.
Proof.
  intro this. split.
  - destruct (fst (Group.isClipped this)) eqn:E; [| reflexivity].
    apply (proj1 (proj1 (isClipped_iff_some_clip_mask 2 256 this))) in E.
    destruct E as (child & [<- | [<- | []]] & Hm); discriminate Hm.
  - exact (proj2 (proj2 (isClipped_iff_some_clip_mask 2 256 this))
                 1%nat (Group.mkChild 1 false true) true 256%Z eq_refl).
Defined.

Lemma setClipped_first_child_only_witness :
  Group._children
    (Group.setClipped 2 256
       (Group.mk [Group.mkChild 0 false true; Group.mkChild 1 false false]
                 None "source-in")
       true)
  = [Group.mkChild 0 true true; Group.mkChild 1 false false].
Proof.
  exact (proj1 (proj2 (setClipped_first_child_only 2 256
                         (Group.mk [Group.mkChild 0 false true;
                                    Group.mkChild 1 false false]
                                   None "source-in")
                         true))
               (Group.mkChild 0 false true) [Group.mkChild 1 false false]
               eq_refl).
Defined.

Lemma degenerate_bounds_abort_clipped_pass_witness :
  snd (Group._draw Sample.draw (fun _ => mkRectangle 5 5 0 10)
         (Group.mk [Group.mkChild 0 true true; Group.mkChild 1 false true]
                   None "source-in")
         Sample.context (Group.mkParam None))
  = Group.mkDrawState Sample.context (Group.mkParam None) [].
Proof.
  refine (proj1 (degenerate_bounds_abort_clipped_pass Sample.draw
                   (fun _ => mkRectangle 5 5 0 10)
                   (Group.mk [Group.mkChild 0 true true;
                              Group.mkChild 1 false true] None "source-in")
                   Sample.context (Group.mkParam None))
                eq_refl _).
  left. reflexivity.
Defined.

(** C8, as stated, fails on the code: without a clip mask the bounds are
    not looked at, and the child of a group with empty stroke bounds is
    drawn. *)
Lemma degenerate_bounds_unclipped_pass_draws :
  let child := Group.mkChild 0 false true in
  let bounds := mkRectangle 5 5 0 0 in
  width bounds == 0
  /\ height bounds == 0
  /\ Group.calls
       (snd (Group._draw Sample.draw (fun _ => bounds)
               (Group.mk [child] None "source-in")
               Sample.context (Group.mkParam None)))
     = [(child, "source-over")].
Proof. cbv zeta. repeat split. Qed.

Lemma clip_masks_drawn_under_group_operator_witness :
  let ordinary0 := Group.mkChild 0 false true in
  let unclippable1 := Group.mkChild 1 false false in
  let mask2 := Group.mkChild 2 true true in
  Group.calls
    (snd (Group._draw Sample.draw (fun _ => mkRectangle 0 0 10 10)
            (Group.mk [ordinary0; unclippable1; mask2] None "destination-out")
            Sample.context (Group.mkParam None)))
  = [(ordinary0, "source-over"); (mask2, "destination-out");
     (unclippable1, "source-over")].
Proof.
  intros.
  refine (clip_masks_drawn_under_group_operator Sample.draw
            (fun _ => mkRectangle 0 0 10 10)
            (Group.mk [ordinary0; unclippable1; mask2] None "destination-out")
            Sample.context (Group.mkParam None) _ eq_refl).
  intros item _ _ c p. reflexivity.
Defined.

(* ================================================================== *)
(** * Further properties of the wrap *)

(** ** Strings *)

Lemma string_app_assoc (a b c : string) : ((a ++ b) ++ c = a ++ (b ++ c))%string.
Proof. induction a as [| ch a IH]; simpl; [reflexivity | now rewrite IH]. Qed.

Lemma string_app_nil_r (a : string) : (a ++ "" = a)%string.
Proof. induction a as [| ch a IH]; simpl; [reflexivity | now rewrite IH]. Qed.

Lemma letters_app (a b : string) :
  Layout.letters (a ++ b) = (Layout.letters a ++ Layout.letters b)%string.
Proof.
  induction a as [| ch a IH]; simpl; [reflexivity |].
  destruct (Ascii.eqb ch " "); simpl; now rewrite IH.
Qed.

Lemma glue_app (l1 l2 : list string) :
  Layout.glue (l1 ++ l2) = (Layout.glue l1 ++ Layout.glue l2)%string.
Proof.
  induction l1 as [| x l1 IH]; simpl; [reflexivity |].
  now rewrite IH, string_app_assoc.
Qed.

(** Joining with a separator that is empty or made of spaces adds no
    letter. *)
Lemma letters_join (separator : string) (l : list string) :
  Layout.letters separator = "" ->
  Layout.letters (JS.join separator l) = Layout.glue (map Layout.letters l).
Proof.
  intro Hsep. unfold JS.join.
  induction l as [| x l IH]; [reflexivity |].
  destruct l as [| y l].
  - simpl. now rewrite string_app_nil_r.
  - change (String.concat separator (x :: y :: l))
      with (x ++ separator ++ String.concat separator (y :: l))%string.
    rewrite !letters_app, Hsep, IH. reflexivity.
Qed.

Lemma letters_chars (w : string) :
  Layout.glue (map Layout.letters (JS.chars w)) = Layout.letters w.
Proof.
  induction w as [| ch w IH]; simpl; [reflexivity |].
  rewrite IH. destruct (Ascii.eqb ch " "); reflexivity.
Qed.

Lemma split_nonempty (sep : ascii) (s : string) : JS.split sep s <> [].
Proof.
  destruct s as [| ch s]; simpl; [discriminate |].
  destruct (Ascii.eqb ch sep); [discriminate |].
  destruct (JS.split sep s); discriminate.
Qed.

(** Splitting at a character and joining with it gives the string back. *)
Lemma join_split (sep : ascii) (s : string) :
  JS.join (String sep "") (JS.split sep s) = s.
Proof.
  unfold JS.join.
  induction s as [| ch s IH]; [reflexivity |].
  cbn [JS.split].
  destruct (Ascii.eqb ch sep) eqn:E.
  - apply Ascii.eqb_eq in E. subst ch.
    pose proof (split_nonempty sep s) as Hne.
    destruct (JS.split sep s) as [| h t]; [now elim Hne |].
    change (String.concat (String sep "") ("" :: h :: t))
      with ("" ++ String sep "" ++ String.concat (String sep "") (h :: t))%string.
    rewrite IH. reflexivity.
  - pose proof (split_nonempty sep s) as Hne.
    destruct (JS.split sep s) as [| h t]; [now elim Hne |].
    destruct t as [| h' t].
    + simpl in *. now rewrite IH.
    + change (String.concat (String sep "") (String ch h :: h' :: t))
        with (String ch (h ++ String sep ""
                         ++ String.concat (String sep "") (h' :: t)))%string.
      change (String.concat (String sep "") (h :: h' :: t))
        with (h ++ String sep "" ++ String.concat (String sep "") (h' :: t))%string
        in IH.
      now rewrite IH.
Qed.

Lemma letters_split (s : string) :
  Layout.glue (map Layout.letters (JS.split " " s)) = Layout.letters s.
Proof.
  rewrite <- (letters_join " " (JS.split " " s) eq_refl).
  now rewrite join_split.
Qed.

Lemma skipn_nth_error {A : Type} (l : list A) (n : nat) (x : A) :
  nth_error l n = Some x -> skipn n l = x :: skipn (S n) l.
Proof.
  revert n. induction l as [| y l IH]; intros [| n] H; try discriminate.
  - now injection H as ->.
  - simpl in *. now apply IH.
Qed.

(** ** The wrap loses no letter *)

Section WrapLetters.

Variable measureText : string -> string -> Q.
Variable style0 : Style.t.
Variable leading0 : Q.
Variable maxWidth : Q.
Variable maxHeight : Q.
Variable font0 : string.

#[warnings="-notation-for-abbreviation"]
Local Notation testLine_from :=
  (AreaText.testLine_from measureText style0 leading0 maxWidth maxHeight font0).
#[warnings="-notation-for-abbreviation"]
Local Notation drawLines :=
  (AreaText.drawLines measureText style0 leading0 maxWidth maxHeight font0).
#[warnings="-notation-for-abbreviation"]
Local Notation run := (AreaText.run style0 leading0 maxHeight).
#[warnings="-notation-for-abbreviation"]
Local Notation text_of l := (Layout.glue (map Layout.letters l)).

(** The letters of the lines emitted by the loop, followed by those of the
    candidate it returns, are the letters of the candidate it started with
    followed by those of the words from index [n] on. *)
Lemma testLine_from_letters (fuel : nat) :
  forall words separator n line st l st',
    Layout.letters separator = "" ->
    testLine_from fuel words separator n line st = Some (l, st') ->
    exists ls,
      st' = run st ls
      /\ (text_of ls ++ text_of l
          = text_of line ++ text_of (skipn n words))%string.
Proof.
  induction fuel as [| fuel IH]; intros words sep n line st l st' Hsep H.
  - discriminate.
  - cbn [AreaText.testLine_from] in H.
    destruct (nth_error words n) as [w |] eqn:Ew.
    2:{ injection H as <- <-. exists []. split; [reflexivity |].
        rewrite skipn_all2 by now apply nth_error_None.
        simpl. now rewrite string_app_nil_r. }
    rewrite (skipn_nth_error _ _ _ Ew). cbv zeta in H.
    remember (skipn (S n) words) as rest eqn:Erest.
    cbn [map Layout.glue].
    destruct (JS.gt _ maxWidth).
    + destruct line as [| x line'].
      * destruct (testLine_from fuel (JS.chars w) "" 0%nat [] st)
          as [[l1 st1] |] eqn:E; [| discriminate].
        destruct (IH (JS.chars w) ""%string 0%nat [] st l1 st1 eq_refl E)
          as (ls1 & -> & H1).
        destruct (IH _ _ _ _ _ _ _ Hsep H) as (ls2 & -> & H2).
        rewrite <- Erest in H2.
        change (skipn 0 (JS.chars w)) with (JS.chars w) in H1.
        rewrite letters_chars in H1.
        cbn [map Layout.glue append] in H1, H2 |- *.
        exists (ls1 ++ JS.join "" l1 :: ls2)%list. split.
        { now rewrite run_app. }
        rewrite map_app, glue_app. cbn [map Layout.glue].
        rewrite (letters_join "" l1 eq_refl).
        rewrite !string_app_assoc, H2, <- string_app_assoc, H1.
        reflexivity.
      * destruct (IH _ _ _ _ _ _ _ Hsep H) as (ls & -> & H1).
        rewrite (skipn_nth_error _ _ _ Ew), <- Erest in H1.
        cbn [map Layout.glue append] in H1.
        exists (JS.join sep (x :: line') :: ls). split; [reflexivity |].
        cbn [map Layout.glue].
        rewrite (letters_join sep (x :: line') Hsep).
        cbn [map Layout.glue].
        now rewrite !string_app_assoc, H1.
    + destruct (IH _ _ _ _ _ _ _ Hsep H) as (ls & -> & H1).
      rewrite <- Erest in H1.
      exists ls. split; [reflexivity |].
      rewrite H1, map_app, glue_app. cbn [map Layout.glue].
      now rewrite string_app_nil_r, string_app_assoc.
Qed.

Lemma drawLines_letters (fuel : nat) (lines : list string) :
  forall st st',
    drawLines fuel lines st = Some st' ->
    exists ls, st' = run st ls /\ text_of ls = text_of lines.
Proof.
  induction lines as [| l rest IH]; intros st st' H; cbn [AreaText.drawLines] in H.
  - injection H as <-. now exists [].
  - unfold AreaText.testLine in H.
    destruct (testLine_from fuel _ " " 0%nat [] st) as [[line st1] |] eqn:E;
      [| discriminate].
    destruct (testLine_from_letters fuel (JS.split " " l) " "%string 0%nat []
                st line st1 eq_refl E) as (ls1 & -> & H1).
    change (skipn 0 (JS.split " " l)) with (JS.split " " l) in H1.
    rewrite letters_split in H1. cbn [map Layout.glue append] in H1.
    destruct (IH _ _ H) as (ls2 & -> & H2).
    cbn [map Layout.glue]. rewrite <- H1, <- H2.
    destruct line as [| x line'].
    + exists (ls1 ++ ls2)%list. split; [now rewrite run_app |].
      rewrite map_app, glue_app. simpl. now rewrite string_app_nil_r.
    + exists (ls1 ++ JS.join " " (x :: line') :: ls2)%list.
      split; [now rewrite run_app |].
      rewrite map_app, glue_app. cbn [map Layout.glue].
      rewrite (letters_join " " (x :: line') eq_refl).
      now rewrite string_app_assoc.
Qed.

End WrapLetters.

(** ** No emitted line is wider than the box *)

Section WrapFits.

Variable measureText : string -> string -> Q.
Variable style0 : Style.t.
Variable leading0 : Q.
Variable maxWidth : Q.
Variable maxHeight : Q.
Variable font0 : string.

#[warnings="-notation-for-abbreviation"]
Local Notation testLine_from :=
  (AreaText.testLine_from measureText style0 leading0 maxWidth maxHeight font0).
#[warnings="-notation-for-abbreviation"]
Local Notation drawLines :=
  (AreaText.drawLines measureText style0 leading0 maxWidth maxHeight font0).
#[warnings="-notation-for-abbreviation"]
Local Notation run := (AreaText.run style0 leading0 maxHeight).
#[warnings="-notation-for-abbreviation"]
Local Notation fits s := (JS.gt (measureText font0 s) maxWidth = false).

(** The empty run is not wider than the box. *)
Hypothesis empty_fits : fits "".

Lemma testLine_from_fits (fuel : nat) :
  forall words separator n line st l st',
    line = [] \/ fits (JS.join separator line) ->
    testLine_from fuel words separator n line st = Some (l, st') ->
    exists ls,
      st' = run st ls
      /\ Forall (fun s => fits s) ls
      /\ (l = [] \/ fits (JS.join separator l)).
Proof.
  induction fuel as [| fuel IH]; intros words sep n line st l st' Hline H.
  - discriminate.
  - cbn [AreaText.testLine_from] in H.
    destruct (nth_error words n) as [w |].
    2:{ injection H as <- <-. exists []. repeat split; auto. }
    cbv zeta in H.
    destruct (JS.gt (measureText font0 (JS.join sep (line ++ [w]))) maxWidth)
      eqn:Egt.
    + destruct line as [| x line'].
      * destruct (testLine_from fuel (JS.chars w) "" 0%nat [] st)
          as [[l1 st1] |] eqn:E; [| discriminate].
        destruct (IH _ _ _ _ _ _ _ (or_introl eq_refl) E)
          as (ls1 & -> & F1 & Hl1).
        destruct (IH _ _ _ _ _ _ _ (or_introl eq_refl) H)
          as (ls2 & -> & F2 & Hl).
        exists (ls1 ++ JS.join "" l1 :: ls2)%list.
        split; [now rewrite run_app |]. split; [| exact Hl].
        apply Forall_app. split; [exact F1 |]. constructor; [| exact F2].
        destruct Hl1 as [-> | Hl1]; [exact empty_fits | exact Hl1].
      * destruct (IH _ _ _ _ _ _ _ (or_introl eq_refl) H)
          as (ls & -> & F & Hl).
        exists (JS.join sep (x :: line') :: ls).
        split; [reflexivity |]. split; [| exact Hl].
        constructor; [| exact F].
        destruct Hline as [Hline | Hline]; [discriminate | exact Hline].
    + exact (IH _ _ _ _ _ _ _ (or_intror Egt) H).
Qed.

Lemma drawLines_fits (fuel : nat) (lines : list string) :
  forall st st',
    drawLines fuel lines st = Some st' ->
    exists ls, st' = run st ls /\ Forall (fun s => fits s) ls.
Proof.
  induction lines as [| l rest IH]; intros st st' H; cbn [AreaText.drawLines] in H.
  - injection H as <-. now exists [].
  - unfold AreaText.testLine in H.
    destruct (testLine_from fuel _ " " 0%nat [] st) as [[line st1] |] eqn:E;
      [| discriminate].
    destruct (testLine_from_fits _ _ _ _ _ _ _ _ (or_introl eq_refl) E)
      as (ls1 & -> & F1 & Hl).
    destruct (IH _ _ H) as (ls2 & -> & F2).
    destruct line as [| x line'].
    + exists (ls1 ++ ls2)%list. split; [now rewrite run_app |].
      apply Forall_app. now split.
    + exists (ls1 ++ JS.join " " (x :: line') :: ls2)%list.
      split; [now rewrite run_app |].
      apply Forall_app. split; [exact F1 |]. constructor; [| exact F2].
      destruct Hl as [Hl | Hl]; [discriminate | exact Hl].
Qed.

End WrapFits.

(** ** Lines that fit are not wrapped *)



Section Unwrapped.

Variable measureText : string -> string -> Q.
Variable style0 : Style.t.
Variable leading0 : Q.
Variable maxWidth : Q.
Variable maxHeight : Q.
Variable font0 : string.

Hypothesis measureText_monotone :
  forall font s t, measureText font s <= measureText font (s ++ t).

#[warnings="-notation-for-abbreviation"]
Local Notation testLine_from :=
  (AreaText.testLine_from measureText style0 leading0 maxWidth maxHeight font0).
#[warnings="-notation-for-abbreviation"]
Local Notation drawLines :=
  (AreaText.drawLines measureText style0 leading0 maxWidth maxHeight font0).
#[warnings="-notation-for-abbreviation"]
Local Notation run := (AreaText.run style0 leading0 maxHeight).



End Unwrapped.

(** ** What is painted *)

Section Column.

Variable style0 : Style.t.
Variable leading0 : Q.
Variable maxHeight : Q.

#[warnings="-notation-for-abbreviation"]
Local Notation run := (AreaText.run style0 leading0 maxHeight).
#[warnings="-notation-for-abbreviation"]
Local Notation writeLine := (AreaText.writeLine style0 leading0 maxHeight).

Lemma writeLine_painted (st : AreaText.DrawState) (line : string) :
  AreaText.overflows leading0 maxHeight st = false ->
  Canvas.painted (AreaText.ctx (writeLine st line))
  = (Canvas.painted (AreaText.ctx st)
     ++ Layout.paint_line style0 (Canvas.transform (AreaText.ctx st)) line)%list.
Proof.
  unfold AreaText.writeLine, Layout.paint_line. intros ->.
  destruct (JS.truthy_ref (Style.fillColor style0)),
           (JS.truthy_ref (Style.strokeColor style0)); cbn.
  - now rewrite <- app_assoc.
  - reflexivity.
  - reflexivity.
  - now rewrite app_nil_r.
Qed.

(** A run of [writeLine] paints the column of its lines: the test on every
    later line gives what stopping at the first overflow gives. *)
Lemma run_column (ls : list string) :
  forall st,
    Canvas.painted (AreaText.ctx (run st ls))
    = (Canvas.painted (AreaText.ctx st)
       ++ Layout.column style0 leading0 maxHeight
            (Canvas.transform (AreaText.ctx st)) (AreaText.currentHeight st) ls)%list.
Proof.
  induction ls as [| l ls IH]; intro st.
  - cbn. now rewrite app_nil_r.
  - change (run st (l :: ls)) with (run (writeLine st l) ls).
    cbn [Layout.column].
    destruct (AreaText.overflows leading0 maxHeight st) eqn:Hov.
    + unfold AreaText.overflows in Hov. rewrite Hov.
      destruct (writeLine_dropped style0 leading0 maxHeight st l Hov) as [Hc Hh].
      assert (Hov' : AreaText.overflows leading0 maxHeight (writeLine st l) = true).
      { unfold AreaText.overflows. now rewrite Hh. }
      destruct (run_dropped style0 leading0 maxHeight ls _ Hov') as [Hc' _].
      now rewrite Hc', Hc, app_nil_r.
    + destruct (writeLine_fits style0 leading0 maxHeight st l Hov)
        as (Hh & Ht & _).
      unfold AreaText.overflows in Hov. rewrite Hov.
      rewrite IH, writeLine_painted, Ht, Hh, <- app_assoc; [reflexivity |].
      exact Hov.
Qed.

(** The cursor stays inside the box. *)
Lemma run_cursor (ls : list string) :
  forall st,
    AreaText.currentHeight st <= maxHeight ->
    AreaText.currentHeight (run st ls) <= maxHeight.
Proof.
  induction ls as [| l ls IH]; intros st H; [exact H |].
  change (run st (l :: ls)) with (run (writeLine st l) ls).
  apply IH.
  destruct (AreaText.overflows leading0 maxHeight st) eqn:Hov.
  - now rewrite (proj2 (writeLine_dropped style0 leading0 maxHeight st l Hov)).
  - rewrite (proj1 (writeLine_fits style0 leading0 maxHeight st l Hov)).
    now apply gt_false_iff.
Qed.

End Column.

(** ** The whole draw *)

Section AreaTextLayout.

Variable parseInt : string -> Q.
Variable measureText : string -> string -> Q.
Variable getFontStyle : Style.t -> string.
Variable _setStyles : Style.t -> Canvas.Context -> Canvas.Context.

#[warnings="-notation-for-abbreviation"]
Local Notation _draw :=
  (AreaText._draw parseInt measureText getFontStyle _setStyles).
#[warnings="-notation-for-abbreviation"]
Local Notation start this c :=
  (AreaText.mkDrawState
     (AreaText.origin parseInt getFontStyle this
        (_setStyles (AreaText.style this) c)) 0 []).
#[warnings="-notation-for-abbreviation"]
Local Notation font_of this := (getFontStyle (AreaText.style this)).
#[warnings="-notation-for-abbreviation"]
Local Notation width_of this := (width (AreaText.bounds this)).
#[warnings="-notation-for-abbreviation"]
Local Notation height_of this := (height (AreaText.bounds this)).

(** A draw of an item with content, in a box that is not empty, is the
    loop over the logical lines from the start state. *)
Lemma _draw_layout (fuel : nat) (this : AreaText.Item) (c : Canvas.Context)
    (text : TextItem) :
  AreaText._text this = Some text ->
  _content text <> "" ->
  ~ width_of this == 0 ->
  ~ height_of this == 0 ->
  _draw fuel this c
  = AreaText.drawLines measureText (AreaText.style this)
      (Style.leading (AreaText.style this)) (width_of this) (height_of this)
      (font_of this) fuel (_lines text) (start this c).
Proof.
  intros Htext Hcontent Hw Hh. unfold AreaText._draw. rewrite Htext.
  destruct (_content text) as [| ch content]; [now elim Hcontent |].
  now rewrite (Qeq_bool_false _ _ Hw), (Qeq_bool_false _ _ Hh).
Qed.

(** The output lines, without their spaces and one after the other, spell
    the logical lines without their spaces: the wrap drops no letter and
    repeats none. *)
Theorem wrap_keeps_letters (fuel : nat) (this : AreaText.Item)
    (c : Canvas.Context) (text : TextItem) (res : AreaText.DrawState) :
  AreaText._text this = Some text ->
  _content text <> "" ->
  ~ width_of this == 0 ->
  ~ height_of this == 0 ->
  _draw fuel this c = Some res ->
  Layout.glue (map Layout.letters (AreaText.emitted res))
  = Layout.glue (map Layout.letters (_lines text)).
Proof.
  intros Htext Hcontent Hw Hh H.
  rewrite (_draw_layout fuel this c text Htext Hcontent Hw Hh) in H.
  destruct (drawLines_letters _ _ _ _ _ _ _ _ _ _ H) as (ls & -> & Hls).
  now rewrite run_emitted.
Qed.

(** When the empty run is not wider than the box, no output line is. *)
Theorem emitted_lines_fit_box (fuel : nat) (this : AreaText.Item)
    (c : Canvas.Context) (res : AreaText.DrawState) :
  measureText (font_of this) "" <= width_of this ->
  _draw fuel this c = Some res ->
  Forall (fun line => measureText (font_of this) line <= width_of this)
         (AreaText.emitted res).
Proof.
  intros Hempty H. unfold AreaText._draw in H.
  destruct (AreaText._text this) as [text |].
  2:{ injection H as <-. constructor. }
  destruct (_content text).
  { injection H as <-. constructor. }
  destruct (Qeq_bool _ 0 || Qeq_bool _ 0).
  { injection H as <-. constructor. }
  apply gt_false_iff in Hempty.
  destruct (drawLines_fits _ _ _ _ _ _ Hempty _ _ _ _ H) as (ls & -> & F).
  rewrite run_emitted. cbn [AreaText.emitted app].
  eapply Forall_impl; [| exact F].
  intros line Hline. now apply gt_false_iff.
Qed.


(** What a draw paints is the column of its output lines, set from the
    origin: each line filled, then stroked, as the style has the colors,
    one leading below the line before it, and nothing from the first line
    on that would pass the bottom of the box. *)
Theorem draw_paints_column (fuel : nat) (this : AreaText.Item)
    (c : Canvas.Context) (text : TextItem) (res : AreaText.DrawState) :
  AreaText._text this = Some text ->
  _content text <> "" ->
  ~ width_of this == 0 ->
  ~ height_of this == 0 ->
  _draw fuel this c = Some res ->
  Canvas.painted (AreaText.ctx res)
  = (Canvas.painted (_setStyles (AreaText.style this) c)
     ++ Layout.column (AreaText.style this)
          (Style.leading (AreaText.style this)) (height_of this)
          (Canvas.transform
             (AreaText.origin parseInt getFontStyle this
                (_setStyles (AreaText.style this) c)))
          0 (AreaText.emitted res))%list.
Proof.
  intros Htext Hcontent Hw Hh H.
  rewrite (_draw_layout fuel this c text Htext Hcontent Hw Hh) in H.
  destruct (drawLines_run _ _ _ _ _ _ _ _ _ _ H) as [ls ->].
  rewrite run_column, run_emitted. reflexivity.
Qed.

(** In a box of height zero or more the cursor never passes the bottom of
    the box. *)
Theorem cursor_stays_in_box (fuel : nat) (this : AreaText.Item)
    (c : Canvas.Context) (res : AreaText.DrawState) :
  0 <= height_of this ->
  _draw fuel this c = Some res ->
  AreaText.currentHeight res <= height_of this.
Proof.
  intros Hpos H. unfold AreaText._draw in H.
  destruct (AreaText._text this) as [text |].
  2:{ injection H as <-. exact Hpos. }
  destruct (_content text).
  { injection H as <-. exact Hpos. }
  destruct (Qeq_bool _ 0 || Qeq_bool _ 0).
  { injection H as <-. exact Hpos. }
  destruct (drawLines_run _ _ _ _ _ _ _ _ _ _ H) as [ls ->].
  now apply run_cursor.
Qed.

(** Without a payload or with empty content the draw returns at once and
    the context is untouched. With content and a box of zero width or zero
    height it returns once the style attributes are written: no line is
    emitted, nothing is painted on top, and the font, the alignment and the
    origin are not set. *)
Theorem draw_without_layout (fuel : nat) (this : AreaText.Item)
    (c : Canvas.Context) :
  ((AreaText._text this = None
    \/ exists text, AreaText._text this = Some text /\ _content text = "") ->
   _draw fuel this c = Some (AreaText.mkDrawState c 0 []))
  /\ (forall text,
        AreaText._text this = Some text ->
        _content text <> "" ->
        width_of this == 0 \/ height_of this == 0 ->
        _draw fuel this c
        = Some (AreaText.mkDrawState (_setStyles (AreaText.style this) c) 0 [])).
Proof.
  split.
  - intros [H | (text & H & Hc)]; unfold AreaText._draw; rewrite H.
    + reflexivity.
    + now rewrite Hc.
  - intros text H Hc Hzero. unfold AreaText._draw. rewrite H.
    destruct (_content text); [now elim Hc |].
    assert (E : Qeq_bool (width_of this) 0 || Qeq_bool (height_of this) 0 = true).
    { apply orb_true_iff.
      destruct Hzero as [Hz | Hz]; [left | right]; now apply Qeq_bool_iff. }
    now rewrite E.
Qed.

End AreaTextLayout.

(** ** The draw properties on a concrete item *)

Lemma wrap_keeps_letters_witness :
  exists res,
    AreaText._draw Sample.parseInt Sample.measureText Sample.getFontStyle
      Sample._setStyles 40
      (Sample.item "x" ["XXXXXXXXXX"; ""; "aaa bbb ccc"] 30 100) Sample.context
    = Some res
    /\ Layout.glue (map Layout.letters (AreaText.emitted res))
       = "XXXXXXXXXXaaabbbccc"%string.
Proof.
  destruct (AreaText._draw Sample.parseInt Sample.measureText
              Sample.getFontStyle Sample._setStyles 40
              (Sample.item "x" ["XXXXXXXXXX"; ""; "aaa bbb ccc"] 30 100)
              Sample.context) as [res |] eqn:E.
  - exists res. split; [reflexivity |].
    refine (wrap_keeps_letters Sample.parseInt Sample.measureText
              Sample.getFontStyle Sample._setStyles 40
              (Sample.item "x" ["XXXXXXXXXX"; ""; "aaa bbb ccc"] 30 100)
              Sample.context
              (mkTextItem "x" ["XXXXXXXXXX"; ""; "aaa bbb ccc"]) res
              eq_refl _ _ _ E).
    + discriminate.
    + vm_compute. discriminate.
    + vm_compute. discriminate.
  - vm_compute in E. discriminate E.
Defined.

Lemma emitted_lines_fit_box_witness :
  exists res,
    AreaText._draw Sample.parseInt Sample.measureText Sample.getFontStyle
      Sample._setStyles 40
      (Sample.item "x" ["XXXXXXXXXX"; ""; "aaa bbb ccc"] 30 100) Sample.context
    = Some res
    /\ Forall (fun line => Sample.measureText "12px sans-serif" line <= 30)
              (AreaText.emitted res).
Proof.
  destruct (AreaText._draw Sample.parseInt Sample.measureText
              Sample.getFontStyle Sample._setStyles 40
              (Sample.item "x" ["XXXXXXXXXX"; ""; "aaa bbb ccc"] 30 100)
              Sample.context) as [res |] eqn:E.
  - exists res. split; [reflexivity |].
    refine (emitted_lines_fit_box Sample.parseInt Sample.measureText
              Sample.getFontStyle Sample._setStyles 40
              (Sample.item "x" ["XXXXXXXXXX"; ""; "aaa bbb ccc"] 30 100)
              Sample.context res _ E).
    vm_compute. discriminate.
  - vm_compute in E. discriminate E.
Defined.


Lemma draw_paints_column_witness :
  exists res,
    AreaText._draw Sample.parseInt Sample.measureText Sample.getFontStyle
      Sample._setStyles 40
      (Sample.item "x" ["XXXXXXXXXX"; ""; "aaa bbb ccc"] 30 40) Sample.context
    = Some res
    /\ Canvas.painted (AreaText.ctx res)
       = Layout.column Sample.style (72 # 5) 40
           (Canvas.mkMatrix 1 0 0 1 (0 + 1 * (10 + 1) + 0 * (20 + 12 - 1))
                            (0 + 0 * (10 + 1) + 1 * (20 + 12 - 1)))
           0 (AreaText.emitted res).
Proof.
  destruct (AreaText._draw Sample.parseInt Sample.measureText
              Sample.getFontStyle Sample._setStyles 40
              (Sample.item "x" ["XXXXXXXXXX"; ""; "aaa bbb ccc"] 30 40)
              Sample.context) as [res |] eqn:E.
  - exists res. split; [reflexivity |].
    refine (draw_paints_column Sample.parseInt Sample.measureText
              Sample.getFontStyle Sample._setStyles 40
              (Sample.item "x" ["XXXXXXXXXX"; ""; "aaa bbb ccc"] 30 40)
              Sample.context
              (mkTextItem "x" ["XXXXXXXXXX"; ""; "aaa bbb ccc"]) res
              eq_refl _ _ _ E).
    + discriminate.
    + vm_compute. discriminate.
    + vm_compute. discriminate.
  - vm_compute in E. discriminate E.
Defined.

Lemma cursor_stays_in_box_witness :
  exists res,
    AreaText._draw Sample.parseInt Sample.measureText Sample.getFontStyle
      Sample._setStyles 40
      (Sample.item "x" ["XXXXXXXXXX"; ""; "aaa bbb ccc"] 30 40) Sample.context
    = Some res
    /\ AreaText.currentHeight res <= 40.
Proof.
  destruct (AreaText._draw Sample.parseInt Sample.measureText
              Sample.getFontStyle Sample._setStyles 40
              (Sample.item "x" ["XXXXXXXXXX"; ""; "aaa bbb ccc"] 30 40)
              Sample.context) as [res |] eqn:E.
  - exists res. split; [reflexivity |].
    refine (cursor_stays_in_box Sample.parseInt Sample.measureText
              Sample.getFontStyle Sample._setStyles 40
              (Sample.item "x" ["XXXXXXXXXX"; ""; "aaa bbb ccc"] 30 40)
              Sample.context res _ E).
    vm_compute. discriminate.
  - vm_compute in E. discriminate E.
Defined.

Lemma draw_without_layout_witness :
  AreaText._draw Sample.parseInt Sample.measureText Sample.getFontStyle
    Sample._setStyles 0 (Sample.item "" [] 30 40) Sample.context
  = Some (AreaText.mkDrawState Sample.context 0 [])
  /\ AreaText._draw Sample.parseInt Sample.measureText Sample.getFontStyle
       Sample._setStyles 0 (Sample.item "abc" ["abc"] 0 40) Sample.context
     = Some (AreaText.mkDrawState Sample.context 0 []).
Proof.
  split.
  - refine (proj1 (draw_without_layout Sample.parseInt Sample.measureText
                     Sample.getFontStyle Sample._setStyles 0
                     (Sample.item "" [] 30 40) Sample.context) _).
    right. eexists. split; reflexivity.
  - refine (proj2 (draw_without_layout Sample.parseInt Sample.measureText
                     Sample.getFontStyle Sample._setStyles 0
                     (Sample.item "abc" ["abc"] 0 40) Sample.context)
                  (mkTextItem "abc" ["abc"]) eq_refl _ _).
    + discriminate.
    + left. reflexivity.
Defined.

(* ================================================================== *)
(** * Further properties of the group *)

Lemma partition_permutation {A : Type} (f : A -> bool) (l : list A) :
  Permutation (filter (fun x => negb (f x)) l ++ filter f l) l.
Proof.
  induction l as [| x l IH]; simpl; [constructor |].
  destruct (f x); simpl.
  - apply Permutation_sym, Permutation_cons_app, Permutation_sym, IH.
  - now constructor.
Qed.

Lemma land_lor_same (a b : Z) : Z.land b (Z.lor a b) = b.
Proof.
  apply Z.bits_inj'. intros n Hn.
  rewrite Z.land_spec, Z.lor_spec.
  destruct (Z.testbit a n), (Z.testbit b n); reflexivity.
Qed.

Section GroupMore.

Variable HIERARCHY : Z.
Variable CLIPPING : Z.
Variable draw :
  Group.Child -> Canvas.Context -> Group.Param -> Canvas.Context * Group.Param.
Variable getStrokeBounds : Group.t -> Rectangle.

#[warnings="-notation-for-abbreviation"]
Local Notation _changed := (Group._changed HIERARCHY CLIPPING).
#[warnings="-notation-for-abbreviation"]
Local Notation setClipMask := (Group.setClipMask HIERARCHY CLIPPING).
#[warnings="-notation-for-abbreviation"]
Local Notation setClipped := (Group.setClipped HIERARCHY CLIPPING).
#[warnings="-notation-for-abbreviation"]
Local Notation draw_item := (Group.draw_item draw).
#[warnings="-notation-for-abbreviation"]
Local Notation draw_children := (Group.draw_children draw).
#[warnings="-notation-for-abbreviation"]
Local Notation draw_unclippable := (Group.draw_unclippable draw).
#[warnings="-notation-for-abbreviation"]
Local Notation _draw := (Group._draw draw getStrokeBounds).
#[warnings="-notation-for-abbreviation"]
Local Notation bounds_of this :=
  (getStrokeBounds (snd (Group._getClipItems this))).

(** A pass that is not aborted calls the draw of every child exactly once:
    the calls are a rearrangement of the list of children. *)
Theorem every_child_drawn_once (this : Group.t) (c : Canvas.Context)
    (p : Group.Param) :
  fst (Group.isClipped this) && Group.degenerate (bounds_of this) = false ->
  Permutation (map fst (Group.calls (snd (_draw this c p))))
              (Group._children this).
Proof.
  intro Hok. rewrite _draw_drawn. cbv zeta. rewrite Hok.
  apply partition_permutation.
Qed.

Lemma _changed_clears (this : Group.t) :
  CLIPPING <> 0%Z ->
  Group._clipItems (_changed this CLIPPING) = None.
Proof.
  intro H. unfold Group._changed. rewrite land_lor_same.
  destruct (Z.eqb_spec CLIPPING 0); [contradiction | reflexivity].
Qed.

(** When the clipping flag is not zero, the stored clip items are never
    stale: if they are the clip masks among the children, or are not
    stored, the same holds after a change notification, after setting the
    flag of a child, after [setClipped], and after [_getClipItems],
    [isClipped] and [_draw], which store them anew. *)
Theorem clip_items_never_stale (this : Group.t) :
  CLIPPING <> 0%Z ->
  Layout.coherent this ->
  (forall flags, Layout.coherent (_changed this flags))
  /\ (forall i b, Layout.coherent (setClipMask this i b))
  /\ (forall b, Layout.coherent (setClipped this b))
  /\ Layout.coherent (snd (Group._getClipItems this))
  /\ Layout.coherent (snd (Group.isClipped this))
  /\ (forall c p, Layout.coherent (fst (_draw this c p))).
Proof.
  intros Hflag Hco.
  assert (Hset : forall i b, Layout.coherent (setClipMask this i b)).
  { intros i b. unfold Group.setClipMask.
    destruct (nth_error (Group._children this) i); [| exact Hco].
    unfold Layout.coherent. now rewrite _changed_clears. }
  assert (Hget : Layout.coherent (snd (Group._getClipItems this))).
  { unfold Layout.coherent, Group._getClipItems. cbn.
    now rewrite collectClipItems_filter. }
  repeat split.
  - intro flags. unfold Group._changed.
    destruct (Z.eqb _ 0); [exact Hco | exact I].
  - exact Hset.
  - intro b. unfold Group.setClipped.
    destruct (Group.getFirstChild this); [apply Hset | exact Hco].
  - exact Hget.
  - exact Hget.
  - intros c p. unfold Group._draw.
    unfold Group._getClipItems in Hget |- *. cbn [snd] in Hget. cbv zeta.
    set (this' := Group.mk _ _ _) in *.
    destruct (Nat.ltb 0 _).
    + destruct (Group.degenerate (getStrokeBounds this')); [exact Hget |].
      now destruct (draw_children _ _ _ _ _).
    + now destruct (draw_children _ _ _ _ _).
Qed.

(** *** The offset handed to the children *)

Lemma draw_item_param (item : Group.Child) (st : Group.DrawState) :
  Group.param (draw_item item st)
  = snd (draw item (Group.ctx st) (Group.param st)).
Proof.
  unfold Group.draw_item. now destruct (draw item _ _).
Qed.

Lemma draw_children_param (this : Group.t) (has : bool)
    (children : list Group.Child) :
  (forall item c p, snd (draw item c p) = p) ->
  forall unclippable st,
    Group.param (snd (draw_children this has children unclippable st))
    = Group.param st.
Proof.
  intro H.
  induction children as [| item rest IH]; intros unclippable st;
    cbn [Group.draw_children]; [reflexivity |].
  destruct (Group.isClipMask item).
  - rewrite IH. cbn [Group.set_gco Group.param].
    now rewrite draw_item_param, H.
  - destruct (has && negb (Group.isClippable item)).
    + apply IH.
    + now rewrite IH, draw_item_param, H.
Qed.

Lemma draw_unclippable_param (unclippable : list Group.Child) :
  (forall item c p, snd (draw item c p) = p) ->
  forall st, Group.param (draw_unclippable unclippable st) = Group.param st.
Proof.
  intro H. unfold Group.draw_unclippable.
  induction unclippable as [| item rest IH]; intro st; simpl; [reflexivity |].
  now rewrite IH, draw_item_param, H.
Qed.

(** When the draws of the children leave the parameters alone: a pass of a
    group with a clip mask and bounds that are not degenerate ends with the
    offset set to the top left corner of the stroke bounds moved left and
    up onto the integer grid, less than one unit away; a pass of a group
    without a clip mask leaves the parameters as they were. *)
Theorem offset_is_floored_corner (this : Group.t) (c : Canvas.Context)
    (p : Group.Param) :
  (forall item c p, snd (draw item c p) = p) ->
  (fst (Group.isClipped this) = true ->
   Group.degenerate (bounds_of this) = false ->
   exists o,
     Group.param (snd (_draw this c p)) = Group.mkParam (Some o)
     /\ o = floor (getTopLeft (bounds_of this))
     /\ px o <= rx (bounds_of this) /\ rx (bounds_of this) < px o + 1
     /\ py o <= ry (bounds_of this) /\ ry (bounds_of this) < py o + 1)
  /\ (fst (Group.isClipped this) = false ->
      Group.param (snd (_draw this c p)) = p).
Proof.
  intro H. unfold Group._draw, Group.isClipped.
  cbn [Group._getClipItems fst snd].
  set (this' := Group.mk _ _ _).
  set (has := Nat.ltb 0 _).
  assert (Hpass : forall p0,
            Group.param
              (snd (let '(unclippable, st) :=
                      draw_children this' has (Group._children this') []
                                    (Group.mkDrawState c p0 []) in
                    (this', draw_unclippable unclippable st)))
            = p0).
  { intro p0.
    pose proof (draw_children_param this' has (Group._children this') H []
                  (Group.mkDrawState c p0 [])) as Hp.
    destruct (draw_children _ _ _ _ _) as [u st]. cbn [fst snd] in *.
    now rewrite draw_unclippable_param. }
  split.
  - intros -> ->. rewrite Hpass.
    exists (floor (getTopLeft (getStrokeBounds this'))).
    split; [reflexivity |]. split; [reflexivity |].
    unfold floor, getTopLeft. cbn [px py].
    pose proof (Qfloor_le (rx (getStrokeBounds this'))).
    pose proof (Qlt_floor (rx (getStrokeBounds this'))) as Hx.
    pose proof (Qfloor_le (ry (getStrokeBounds this'))).
    pose proof (Qlt_floor (ry (getStrokeBounds this'))) as Hy.
    rewrite inject_Z_plus in Hx, Hy.
    repeat split; assumption.
  - intros ->. apply Hpass.
Qed.

End GroupMore.

Lemma every_child_drawn_once_witness :
  let children := [Group.mkChild 0 false true; Group.mkChild 1 false false;
                   Group.mkChild 2 true true] in
  Permutation
    (map fst
       (Group.calls
          (snd (Group._draw Sample.draw (fun _ => mkRectangle 0 0 10 10)
                  (Group.mk children None "source-in")
                  Sample.context (Group.mkParam None)))))
    children.
Proof.
  intro children.
  exact (every_child_drawn_once Sample.draw (fun _ => mkRectangle 0 0 10 10)
           (Group.mk children None "source-in")
           Sample.context (Group.mkParam None) eq_refl).
Defined.

Lemma clip_items_never_stale_witness :
  let this :=
    Group.mk [Group.mkChild 0 false true; Group.mkChild 1 true true]
             (Some [Group.mkChild 1 true true]) "source-in" in
  Layout.coherent (Group.setClipped 2 256 this true)
  /\ Layout.coherent (Group.setClipMask 2 256 this 1 false).
Proof.
  intro this.
  assert (Hco : Layout.coherent this) by reflexivity.
  assert (Hflag : 256%Z <> 0%Z) by discriminate.
  pose proof (clip_items_never_stale 2 256 Sample.draw
                (fun _ => mkRectangle 0 0 10 10) this Hflag Hco)
    as (_ & Hset & Hclipped & _).
  split; [apply Hclipped | apply Hset].
Defined.

Lemma offset_is_floored_corner_witness :
  exists o,
    Group.param
      (snd (Group._draw Sample.draw (fun _ => mkRectangle (7 # 2) (-5 # 2) 10 10)
              (Group.mk [Group.mkChild 0 true true] None "source-in")
              Sample.context (Group.mkParam None)))
    = Group.mkParam (Some o)
    /\ o = mkPoint (inject_Z 3) (inject_Z (-3))
    /\ px o <= 7 # 2 /\ 7 # 2 < px o + 1
    /\ py o <= -5 # 2 /\ -5 # 2 < py o + 1.
Proof.
  refine (proj1 (offset_is_floored_corner Sample.draw
                   (fun _ => mkRectangle (7 # 2) (-5 # 2) 10 10)
                   (Group.mk [Group.mkChild 0 true true] None "source-in")
                   Sample.context (Group.mkParam None) _)
                eq_refl eq_refl).
  intros item c p. reflexivity.
Defined.

(* ================================================================== *)
(** * The payload and the clone *)

Section Clone.

Variable parseInt : string -> Q.
Variable measureText : string -> string -> Q.
Variable getFontStyle : Style.t -> string.
Variable _setStyles : Style.t -> Canvas.Context -> Canvas.Context.
Variable newTextItem : Point -> TextItem.
Variable TextItem_clone : TextItem -> TextItem.
Variable Path_call : AreaText.Item -> Style.t * Rectangle.
Variable Path_clone : AreaText.Item -> AreaText.Item -> AreaText.Item.

#[warnings="-notation-for-abbreviation"]
Local Notation clone :=
  (AreaTextText.clone newTextItem TextItem_clone Path_call Path_clone).
#[warnings="-notation-for-abbreviation"]
Local Notation _draw :=
  (AreaText._draw parseInt measureText getFontStyle _setStyles).

(** [clone()] fails exactly on an item without a payload. When the base
    clone copies the style and the bounds and the clone of a payload has
    its content and lines, the clone of an item has the two color mirrors
    of the item and is drawn as the item is: same result on every context,
    with every fuel. *)
Theorem clone_is_drawn_alike (this : AreaText.Item) :
  (forall item copy,
      AreaText.style (Path_clone item copy) = AreaText.style item
      /\ AreaText.bounds (Path_clone item copy) = AreaText.bounds item) ->
  (forall text,
      _content (TextItem_clone text) = _content text
      /\ _lines (TextItem_clone text) = _lines text) ->
  (clone this = None <-> AreaText._text this = None)
  /\ (forall copy,
        clone this = Some copy ->
        AreaText.cssFillColor copy = AreaText.cssFillColor this
        /\ AreaText.cssStrokeColor copy = AreaText.cssStrokeColor this
        /\ forall fuel c, _draw fuel copy c = _draw fuel this c).
Proof.
  intros Hpath Htext.
  unfold AreaTextText.clone, AreaTextText.getText, AreaTextText._clone.
  destruct (AreaText._text this) as [text |] eqn:E.
  - split; [split; discriminate |].
    intros copy H. injection H as <-. cbn.
    split; [reflexivity |]. split; [reflexivity |].
    intros fuel c. unfold AreaText._draw. cbn. rewrite E.
    destruct (Hpath this (AreaTextText.initialize_path newTextItem Path_call
                            this false)) as [-> ->].
    destruct (Htext text) as [-> ->]. reflexivity.
  - split; [split; reflexivity |]. discriminate.
Qed.

End Clone.

Lemma clone_is_drawn_alike_witness :
  let this := Sample.item "aaa bbb" ["aaa bbb"] 40 100 in
  let base_clone (item copy : AreaText.Item) :=
    AreaText.mkItem (AreaText._text copy) (AreaText.style item)
                    (AreaText.cssFillColor copy) (AreaText.cssStrokeColor copy)
                    (AreaText.bounds item) in
  exists copy,
    AreaTextText.clone (fun _ => mkTextItem "" []) (fun text => text)
      (fun item => (AreaText.style item, AreaText.bounds item)) base_clone this
    = Some copy
    /\ AreaText._draw Sample.parseInt Sample.measureText Sample.getFontStyle
         Sample._setStyles 20 copy Sample.context
       = AreaText._draw Sample.parseInt Sample.measureText Sample.getFontStyle
           Sample._setStyles 20 this Sample.context.
Proof.
  intros this base_clone.
  eexists. split; [reflexivity |].
  refine (proj2 (proj2 (proj2 (clone_is_drawn_alike Sample.parseInt
                          Sample.measureText Sample.getFontStyle
                          Sample._setStyles (fun _ => mkTextItem "" [])
                          (fun text => text)
                          (fun item => (AreaText.style item, AreaText.bounds item))
                          base_clone this _ _)
                        _ eq_refl)) 20%nat Sample.context).
  - intros item copy. split; reflexivity.
  - intros text. split; reflexivity.
Defined.

(** ** The older revision: [setText] *)

Section OldSetText.

Variable numberToString : Q -> string.
Variable parseInt : string -> Q.
Variable newTextItem : Point -> string * list string * Style.t.

#[warnings="-notation-for-abbreviation"]
Local Notation setText :=
  (AreaTextOldText.setText numberToString parseInt newTextItem).

(** [setText] installs the payload given, or a new one at the top left
    corner of the bounds when none is given, and runs the two style setters
    without arguments. Of the payload's style only the font size changes:
    it becomes its own integer part followed by "px". The leading is kept
    even when it is zero, and the family even when it is empty. Both color
    mirrors end up holding the payload's fill color. *)
Theorem old_setText_installs_payload (this : AreaTextOld.Item)
    (text : option (string * list string * Style.t)) :
  let '(content, lines, style) :=
    match text with
    | Some t => t
    | None => newTextItem (getTopLeft (AreaTextOld.bounds this))
    end in
  let this' := setText this text in
  AreaTextOld._content this' = content
  /\ AreaTextOld._lines this' = lines
  /\ AreaTextOld._style this'
     = Style.set_fontSize style
         (numberToString (parseInt (Style.fontSize style)) ++ "px")
  /\ AreaTextOld.cssFillColor this' = Style.fillColor style
  /\ AreaTextOld.cssStrokeColor this' = Style.fillColor style
  /\ AreaTextOld.bounds this' = AreaTextOld.bounds this.
Proof.
  unfold AreaTextOldText.setText.
  destruct (match text with
            | Some t => t
            | None => newTextItem (getTopLeft (AreaTextOld.bounds this))
            end) as [[content lines] style].
  destruct style as [fill stroke size lead family just].
  unfold AreaTextOld.setFontStyle, AreaTextOld.setColorStyle. cbn.
  destruct family; cbn; repeat split.
Qed.

End OldSetText.

(* ================================================================== *)
(** * How the setters compose *)

(** The two style setters write to different slots: applied in either
    order they give the same item, and applying one of them twice with the
    same arguments gives what applying it once gives. *)
Theorem style_setters_commute (numberToString : Q -> string)
    (this : AreaText.Item) (color strokeColor : option Color)
    (fontSize : Q) (leading : option Q) (fontFamily : option string) :
  AreaText.setFontStyle numberToString
    (AreaText.setColorStyle this color strokeColor) fontSize leading fontFamily
  = AreaText.setColorStyle
      (AreaText.setFontStyle numberToString this fontSize leading fontFamily)
      color strokeColor
  /\ AreaText.setColorStyle (AreaText.setColorStyle this color strokeColor)
                            color strokeColor
     = AreaText.setColorStyle this color strokeColor
  /\ AreaText.setFontStyle numberToString
       (AreaText.setFontStyle numberToString this fontSize leading fontFamily)
       fontSize leading fontFamily
     = AreaText.setFontStyle numberToString this fontSize leading fontFamily.
Proof.
  unfold AreaText.setFontStyle, AreaText.setColorStyle.
  repeat split;
    destruct leading as [l |]; cbn; try destruct (JS.falsy_num l); cbn;
    destruct fontFamily as [[| ch f] |]; reflexivity.
Qed.

Section ClippedAccessor.

Variable HIERARCHY : Z.
Variable CLIPPING : Z.

#[warnings="-notation-for-abbreviation"]
Local Notation setClipped := (Group.setClipped HIERARCHY CLIPPING).

(** Reading [clipped] after writing it. On a group without children
    [isClipped()] stays false whatever was written. On a group with
    children, after [setClipped(true)] it is true; after
    [setClipped(false)] it is true exactly when a child other than the
    first is a clip mask, so writing false does not always make the group
    unclipped. *)
Theorem clipped_read_after_write (this : Group.t) (clipped : bool) :
  (Group._children this = [] ->
   fst (Group.isClipped (setClipped this clipped)) = false)
  /\ (forall child rest,
        Group._children this = child :: rest ->
        fst (Group.isClipped (setClipped this clipped))
        = (clipped || existsb Group.isClipMask rest)).
Proof.
  split.
  - intro H. rewrite isClipped_existsb.
    unfold Group.setClipped, Group.getFirstChild. rewrite H. now rewrite H.
  - intros child rest H. rewrite isClipped_existsb.
    unfold Group.setClipped, Group.getFirstChild. rewrite H.
    rewrite (setClipMask_children HIERARCHY CLIPPING this 0 child clipped)
      by now rewrite H.
    rewrite H. reflexivity.
Qed.

End ClippedAccessor.

Lemma clipped_read_after_write_witness :
  fst (Group.isClipped
         (Group.setClipped 2 256
            (Group.mk [Group.mkChild 0 true true; Group.mkChild 1 true true]
                      None "source-in")
            false))
  = true.
Proof.
  exact (proj2 (clipped_read_after_write 2 256
                  (Group.mk [Group.mkChild 0 true true; Group.mkChild 1 true true]
                            None "source-in")
                  false)
               (Group.mkChild 0 true true) [Group.mkChild 1 true true] eq_refl).
Defined.

(* ================================================================== *)
(** * What a draw leaves of the surface, line by line *)

Section Fitting.

Variable style0 : Style.t.
Variable leading0 : Q.
Variable maxHeight : Q.

#[warnings="-notation-for-abbreviation"]
Local Notation run := (AreaText.run style0 leading0 maxHeight).
#[warnings="-notation-for-abbreviation"]
Local Notation writeLine := (AreaText.writeLine style0 leading0 maxHeight).
#[warnings="-notation-for-abbreviation"]
Local Notation fitting := (Layout.fitting leading0 maxHeight).

(** A run of [writeLine] moves the origin down by one leading, and the
    cursor on by one leading, for each line before the first one that
    overflows, and not at all for the others. *)
Lemma run_fitting (ls : list string) :
  forall st,
    Canvas.transform (AreaText.ctx (run st ls))
    = Nat.iter (fitting (AreaText.currentHeight st) ls)
               (fun m => Canvas.translate_matrix m 0 leading0)
               (Canvas.transform (AreaText.ctx st))
    /\ AreaText.currentHeight (run st ls)
       = Nat.iter (fitting (AreaText.currentHeight st) ls)
                  (fun h => h + leading0) (AreaText.currentHeight st).
Proof.
  induction ls as [| l ls IH]; intro st.
  - split; reflexivity.
  - change (run st (l :: ls)) with (run (writeLine st l) ls).
    cbn [Layout.fitting].
    destruct (AreaText.overflows leading0 maxHeight st) eqn:Hov.
    + pose proof Hov as Hgt. unfold AreaText.overflows in Hgt. rewrite Hgt.
      destruct (writeLine_dropped style0 leading0 maxHeight st l Hov) as [Hc Hh].
      assert (Hov' : AreaText.overflows leading0 maxHeight (writeLine st l) = true).
      { unfold AreaText.overflows. now rewrite Hh. }
      destruct (run_dropped style0 leading0 maxHeight ls _ Hov') as [Hc' Hh'].
      rewrite Hc', Hh', Hc, Hh. split; reflexivity.
    + pose proof Hov as Hgt. unfold AreaText.overflows in Hgt. rewrite Hgt.
      destruct (writeLine_fits style0 leading0 maxHeight st l Hov)
        as (Hh & Ht & _).
      destruct (IH (writeLine st l)) as [IHt IHh].
      rewrite IHt, IHh, Hh, Ht, !Nat.iter_succ_r. split; reflexivity.
Qed.

(** The column of some lines is the rows of the lines it admits. *)
Lemma column_rows (ls : list string) :
  forall m h,
    Layout.column style0 leading0 maxHeight m h ls
    = Layout.rows style0 leading0 m (firstn (fitting h ls) ls).
Proof.
  induction ls as [| l ls IH]; intros m h; [reflexivity |].
  cbn [Layout.column Layout.fitting].
  destruct (JS.gt (h + leading0) maxHeight); [reflexivity |].
  cbn [firstn Layout.rows]. now rewrite IH.
Qed.

End Fitting.

(** C6, as the code has it. The group undoes its own change of the blend
    operator around each clip mask: if the draws of the children that are
    not clip masks leave the operator as they find it, the operator after
    the pass is the operator before it. The group writes neither the font
    nor the transform: they are after the pass what they were before it if
    the draws of the children leave them alone. The text item undoes
    nothing: a draw that lays out text returns with the font and the
    alignment of the style in force and with the origin moved to the first
    baseline and then down by one leading for each painted line. The
    painted lines are the output lines before the first one that would
    pass the bottom of the box, [k] of them: the glyph runs added are
    those of these [k] lines, one leading apart, the transform is the one
    at the first baseline translated [k] times by the leading, and the
    cursor is [k] leadings. *)
Theorem draw_restores_blend_operator_only
    (draw : Group.Child -> Canvas.Context -> Group.Param
            -> Canvas.Context * Group.Param)
    (getStrokeBounds : Group.t -> Rectangle)
    (parseInt : string -> Q) (measureText : string -> string -> Q)
    (getFontStyle : Style.t -> string)
    (_setStyles : Style.t -> Canvas.Context -> Canvas.Context) :
  (forall this c p,
      (forall item, In item (Group._children this) ->
         Group.isClipMask item = false ->
         forall c p, Canvas.globalCompositeOperation (fst (draw item c p))
                     = Canvas.globalCompositeOperation c) ->
      Canvas.globalCompositeOperation
        (Group.ctx (snd (Group._draw draw getStrokeBounds this c p)))
      = Canvas.globalCompositeOperation c)
  /\ (forall this c p,
      (forall item, In item (Group._children this) ->
         forall c p, Canvas.font (fst (draw item c p)) = Canvas.font c) ->
      (forall item, In item (Group._children this) ->
         forall c p, Canvas.transform (fst (draw item c p))
                     = Canvas.transform c) ->
      Canvas.font (Group.ctx (snd (Group._draw draw getStrokeBounds this c p)))
      = Canvas.font c
      /\ Canvas.transform
           (Group.ctx (snd (Group._draw draw getStrokeBounds this c p)))
         = Canvas.transform c)
  /\ (forall fuel this c res text,
      AreaText._text this = Some text ->
      _content text <> "" ->
      ~ width (AreaText.bounds this) == 0 ->
      ~ height (AreaText.bounds this) == 0 ->
      AreaText._draw parseInt measureText getFontStyle _setStyles fuel this c
      = Some res ->
      let leading := Style.leading (AreaText.style this) in
      let first_baseline :=
        Canvas.transform
          (AreaText.origin parseInt getFontStyle this
             (_setStyles (AreaText.style this) c)) in
      let k :=
        Layout.fitting leading (height (AreaText.bounds this)) 0
                        (AreaText.emitted res) in
      Canvas.font (AreaText.ctx res) = getFontStyle (AreaText.style this)
      /\ Canvas.textAlign (AreaText.ctx res)
         = Style.justification (AreaText.style this)
      /\ Canvas.painted (AreaText.ctx res)
         = (Canvas.painted (_setStyles (AreaText.style this) c)
            ++ Layout.rows (AreaText.style this) leading first_baseline
                 (firstn k (AreaText.emitted res)))%list
      /\ Canvas.transform (AreaText.ctx res)
         = Nat.iter k (fun m => Canvas.translate_matrix m 0 leading)
                    first_baseline
      /\ AreaText.currentHeight res = Nat.iter k (fun h => h + leading) 0).
Proof.
  split; [| split].
  - intros this c p H. now apply _draw_gco.
  - intros this c p Hfont Htransform. split.
    + now apply (_draw_ctx draw getStrokeBounds Canvas.font).
    + now apply (_draw_ctx draw getStrokeBounds Canvas.transform).
  - intros fuel this c res text Htext Hcontent Hw Hh H.
    unfold AreaText._draw in H. rewrite Htext in H.
    destruct (_content text) as [| ch content]; [now elim Hcontent |].
    rewrite (Qeq_bool_false _ _ Hw), (Qeq_bool_false _ _ Hh) in H.
    cbn [orb] in H.
    destruct (drawLines_run _ _ _ _ _ _ _ _ _ _ H) as [ls ->].
    cbv zeta. rewrite run_emitted. cbn [AreaText.emitted app].
    destruct (run_frame (AreaText.style this)
                (Style.leading (AreaText.style this))
                (height (AreaText.bounds this)) ls
                (AreaText.mkDrawState
                   (AreaText.origin parseInt getFontStyle this
                      (_setStyles (AreaText.style this) c)) 0 []))
      as (_ & _ & _ & Hf & Ha & _).
    destruct (run_fitting (AreaText.style this)
                (Style.leading (AreaText.style this))
                (height (AreaText.bounds this)) ls
                (AreaText.mkDrawState
                   (AreaText.origin parseInt getFontStyle this
                      (_setStyles (AreaText.style this) c)) 0 []))
      as [Ht Hcur].
    rewrite Hf, Ha, Ht, Hcur, run_column, column_rows.
    repeat split.
Qed.

Lemma draw_restores_blend_operator_only_witness :
  let group :=
    Group.mk [Group.mkChild 0 false true; Group.mkChild 1 true true;
              Group.mkChild 2 false false]
             None "source-in" in
  Canvas.globalCompositeOperation
    (Group.ctx
       (snd (Group._draw Sample.draw (fun _ => mkRectangle 0 0 10 10) group
                         Sample.context (Group.mkParam None))))
  = "source-over"%string
  /\ exists res,
       AreaText._draw Sample.parseInt Sample.measureText Sample.getFontStyle
         Sample._setStyles 40
         (Sample.item "x" ["XXXXXXXXXX"; ""; "aaa bbb ccc"] 30 40)
         Sample.context
       = Some res
       /\ Layout.fitting (72 # 5) 40 0 (AreaText.emitted res) = 2%nat
       /\ Canvas.transform (AreaText.ctx res)
          = Nat.iter 2 (fun m => Canvas.translate_matrix m 0 (72 # 5))
                     (Canvas.translate_matrix Canvas.identity (10 + 1)
                                              (20 + 12 - 1))
       /\ AreaText.currentHeight res = 0 + (72 # 5) + (72 # 5).
Proof.
  intro group.
  pose proof (draw_restores_blend_operator_only
                Sample.draw (fun _ => mkRectangle 0 0 10 10)
                Sample.parseInt Sample.measureText Sample.getFontStyle
                Sample._setStyles) as (Hgroup & _ & Htext).
  split.
  - apply (Hgroup group Sample.context (Group.mkParam None)).
    intros item _ _ c p. reflexivity.
  - destruct (AreaText._draw Sample.parseInt Sample.measureText
                Sample.getFontStyle Sample._setStyles 40
                (Sample.item "x" ["XXXXXXXXXX"; ""; "aaa bbb ccc"] 30 40)
                Sample.context) as [res |] eqn:E.
    + exists res. split; [reflexivity |].
      assert (Hk : Layout.fitting (72 # 5) 40 0 (AreaText.emitted res) = 2%nat).
      { vm_compute in E. injection E as <-. vm_compute. reflexivity. }
      split; [exact Hk |].
      destruct (Htext 40%nat
                  (Sample.item "x" ["XXXXXXXXXX"; ""; "aaa bbb ccc"] 30 40)
                  Sample.context res
                  (mkTextItem "x" ["XXXXXXXXXX"; ""; "aaa bbb ccc"])
                  eq_refl) as (_ & _ & _ & Ht & Hc); try exact E.
      * discriminate.
      * vm_compute. discriminate.
      * vm_compute. discriminate.
      * cbv zeta in Ht, Hc.
        change (Style.leading (AreaText.style
                  (Sample.item "x" ["XXXXXXXXXX"; ""; "aaa bbb ccc"] 30 40)))
          with (72 # 5) in Ht, Hc.
        change (height (AreaText.bounds
                  (Sample.item "x" ["XXXXXXXXXX"; ""; "aaa bbb ccc"] 30 40)))
          with 40 in Ht, Hc.
        rewrite Hk in Ht, Hc. split; [exact Ht | exact Hc].
    + vm_compute in E. discriminate E.
Defined.
